(** * python_utils.flask_sqlalchemy_base: mixins over an ORM

    A shallow embedding of [python_utils/flask_sqlalchemy_base.py]:
    the lazy-property cache ([lazy_property], [LazyMixin]), the parameter
    registry ([register_parameter], [ParametrizedMixin]), the version counter
    ([Versions]) and the versioned-record mixin ([VersionedMixin]).

    Python code that mutates objects and raises exceptions is written in a
    state-and-exception monad [py S A := S -> result A * S]; the state after
    a raised exception is kept, as in Python. *)

From Stdlib Require Import ZArith String Ascii List Bool Lia.
From stdpp Require Import gmap strings list fin_maps pretty.

Open Scope string_scope.
Open Scope Z_scope.

(** ** Python values, types and exceptions *)

(** The values that flow through the module: [None], booleans, integers,
    strings and references to dict objects (a dict has an identity, the
    index of its cell in the store of dict objects). *)
Inductive value :=
| VNone
| VBool (b : bool)
| VInt (n : Z)
| VStr (s : string)
| VDict (l : nat).

Inductive pytype := NoneType | bool_t | int_t | str_t | dict_t | object_t.

#[global] Instance value_eq_dec : EqDecision value.
Proof. solve_decision. Defined.
#[global] Instance pytype_eq_dec : EqDecision pytype.
Proof. solve_decision. Defined.

(** [type(v)] *)
Definition type_of (v : value) : pytype :=
  match v with
  | VNone => NoneType
  | VBool _ => bool_t
  | VInt _ => int_t
  | VStr _ => str_t
  | VDict _ => dict_t
  end.

(** [issubclass(a, b)]: every class derives from [object], and [bool]
    derives from [int]. *)
Definition issubclass (a b : pytype) : bool :=
  match a, b with
  | _, object_t => true
  | bool_t, int_t => true
  | _, _ => bool_decide (a = b)
  end.

(** [isinstance(v, t)] *)
Definition isinstance (v : value) (t : pytype) : bool := issubclass (type_of v) t.

(** Exceptions are modelled by their class; messages and logging are not. *)
Inductive exn :=
| ValueError
| AttributeError
| TypeError
| DatabaseError.

Inductive result (A : Type) :=
| Ok (a : A)
| Raise (e : exn).
Arguments Ok {A} a.
Arguments Raise {A} e.

(** ** The state-and-exception monad *)

Definition py (S A : Type) : Type := S -> result A * S.

Definition ret {S A} (a : A) : py S A := fun s => (Ok a, s).
Definition raise {S A} (e : exn) : py S A := fun s => (Raise e, s).
Definition bind {S A B} (m : py S A) (k : A -> py S B) : py S B :=
  fun s => match m s with
           | (Ok a, s') => k a s'
           | (Raise e, s') => (Raise e, s')
           end.
(** [try: m  except <e>: h e] *)
Definition try_except {S A} (m : py S A) (h : exn -> py S A) : py S A :=
  fun s => match m s with
           | (Ok a, s') => (Ok a, s')
           | (Raise e, s') => h e s'
           end.
Definition gets {S A} (f : S -> A) : py S A := fun s => (Ok (f s), s).
Definition modify {S} (f : S -> S) : py S unit := fun s => (Ok tt, f s).

Declare Scope py_scope.
Delimit Scope py_scope with py.
Notation "x <- m ;; k" := (bind m (fun x => k))
  (at level 62, m at next level, right associativity) : py_scope.
Notation "m ;;; k" := (bind m (fun _ => k))
  (at level 62, right associativity) : py_scope.
Open Scope py_scope.

(** [for x in xs: body x] *)
Fixpoint for_each {S A} (xs : list A) (body : A -> py S unit) : py S unit :=
  match xs with
  | [] => ret tt
  | x :: xs' => body x ;;; for_each xs' body
  end.

(** ** Sorting names, as [dir()] does *)

Fixpoint insert_sorted (x : string) (l : list string) : list string :=
  match l with
  | [] => [x]
  | y :: l' => if String.leb x y then x :: l else y :: insert_sorted x l'
  end.

Definition sorted (l : list string) : list string := foldr insert_sorted [] l.

(** [s.startswith(p)] *)
Definition startswith (s p : string) : bool := String.prefix p s.

(** ** Instances *)

(** An instance is its attribute dictionary ([__dict__]).  The attributes
    the lazy cache works with, [__lazy_<name>], are only ever created by
    [setattr] on the instance, so [getattr], [hasattr], [delattr] and the
    names of [dir] are read from this dictionary. *)
Abbreviation instance := (gmap string value).

Section Attributes.
(** The state is any store [S] that holds the receiver [self]. *)
Context {S : Type}.
Variable self : S -> instance.
Variable set_self : instance -> S -> S.

Definition getattr (a : string) : py S value :=
  fun s => match self s !! a with
           | Some v => (Ok v, s)
           | None => (Raise AttributeError, s)
           end.

Definition hasattr (a : string) : py S bool :=
  gets (fun s => bool_decide (is_Some (self s !! a))).

Definition setattr (a : string) (v : value) : py S unit :=
  modify (fun s => set_self (<[a := v]> (self s)) s).

Definition delattr (a : string) : py S unit :=
  fun s => match self s !! a with
           | Some _ => (Ok tt, set_self (delete a (self s)) s)
           | None => (Raise AttributeError, s)
           end.

(** [dir(self)], restricted to the instance's own attributes. *)
Definition dir : py S (list string) :=
  gets (fun s => sorted (elements (dom (self s)))).

(** *** [lazy_property] *)

(** A function object: its [__name__] and what calling it on [self]
    does. *)
Record function := { __name__ : string; call : py S value }.

Definition lazy_property (f : function) : py S value :=
  let internal_property := "__lazy_" +:+ __name__ f in
  try_except (getattr internal_property)
    (fun e => match e with
              | AttributeError =>
                  v <- call f ;;
                  setattr internal_property v ;;;
                  ret v
              | e => raise e
              end).

(** *** [LazyMixin.invalidate]; [property_name=None] is [None] here. *)
Definition invalidate (property_name : option string) : py S unit :=
  match property_name with
  | None =>
      names <- dir ;;
      let lazy_properties := filter (fun name => startswith name "__lazy_" = true) names in
      for_each lazy_properties delattr
  | Some property_name =>
      let lazy_property_name := "__lazy_" +:+ property_name in
      b <- hasattr lazy_property_name ;;
      if b then delattr lazy_property_name else ret tt
  end.
End Attributes.

Arguments __name__ {S} f.
Arguments call {S} f.

(** Deleting a list of keys one after the other. *)
Definition delete_all (l : list string) (d : instance) : instance :=
  foldl (fun d a => delete a d) d l.

(** Running a computation on one component of a larger store. *)
Definition zoom {S T A} (get : S -> T) (set : T -> S -> S) (m : py T A) : py S A :=
  fun s => let (r, t) := m (get s) in (r, set t s).

(** [[f x for x in xs]] for an effectful [f] *)
Fixpoint map_m {S A B} (f : A -> py S B) (xs : list A) : py S (list B) :=
  match xs with
  | [] => ret []
  | x :: xs' => y <- f x ;; ys <- map_m f xs' ;; ret (y :: ys)
  end.

(** ** The parameter registry: [register_parameter] *)

(** A registered parameter, the dict with keys [section], [name], [default],
    [type], [description] and [cls]. *)
Record parameter := {
  p_section : string;
  p_name : string;
  p_default : value;
  p_type : pytype;
  p_description : string;
  p_cls : string
}.

(** The decorator object. *)
Record register_parameter := {
  rp_section : string;
  rp_name : string;
  rp_default : value;
  rp_parameter_type : pytype;
  rp_description : string;
  rp_target_class : option nat
}.

Definition PARAMETER_REGISTRY : string := "__parameter_defaults__".

(** [register_parameter.__init__]; the keyword defaults are [section='main'],
    [name=''], [default=''], [parameter_type=None], [description=''],
    [target_class=None]. *)
Definition register_parameter_init (section name : string) (default : value)
    (parameter_type : option pytype) (description : string)
    (target_class : option nat) : register_parameter :=
  {| rp_section := section;
     rp_name := name;
     rp_default := default;
     rp_parameter_type :=
       match parameter_type with
       | None => type_of default
       | Some t => t
       end;
     rp_description := description;
     rp_target_class := target_class |}.

(** Classes are numbered.  What the registry reads of a class is its
    [__name__], the classes that follow it in its method resolution order
    ([object] left out), and the registry lists among its own attributes.
    A list is referenced from the one class attribute it was stored in, so
    appending to the list found through a subclass is an update of the
    owner's attribute. *)
Record pyclass := {
  cls_name : string;
  cls_ancestors : list nat;
  cls_dict : gmap string (list parameter)
}.

Abbreviation classes := (gmap nat pyclass).

Definition no_class : pyclass :=
  {| cls_name := ""; cls_ancestors := []; cls_dict := ∅ |}.

Definition the_class (cs : classes) (c : nat) : pyclass := default no_class (cs !! c).

(** [cls.__mro__] without [object] *)
Definition mro (cs : classes) (c : nat) : list nat := c :: cls_ancestors (the_class cs c).

(** The first class of a resolution order that defines [a], with the value. *)
Fixpoint resolve (cs : classes) (order : list nat) (a : string) : option (nat * list parameter) :=
  match order with
  | [] => None
  | c :: order' =>
      match cls_dict (the_class cs c) !! a with
      | Some l => Some (c, l)
      | None => resolve cs order' a
      end
  end.

Definition class_name (c : nat) : py classes string :=
  gets (fun cs => cls_name (the_class cs c)).

Definition class_hasattr (c : nat) (a : string) : py classes bool :=
  gets (fun cs => bool_decide (is_Some (resolve cs (mro cs c) a))).

Definition class_getattr (c : nat) (a : string) : py classes (list parameter) :=
  fun cs => match resolve cs (mro cs c) a with
            | Some (_, l) => (Ok l, cs)
            | None => (Raise AttributeError, cs)
            end.

Definition with_dict (k : pyclass) (d : gmap string (list parameter)) : pyclass :=
  {| cls_name := cls_name k; cls_ancestors := cls_ancestors k; cls_dict := d |}.

Definition store_attr (c : nat) (a : string) (l : list parameter) (cs : classes) : classes :=
  <[c := with_dict (the_class cs c) (<[a := l]> (cls_dict (the_class cs c)))]> cs.

Definition class_setattr (c : nat) (a : string) (l : list parameter) : py classes unit :=
  modify (store_attr c a l).

(** [getattr(c, a).append(x)]: the list object is the owner's. *)
Definition class_append (c : nat) (a : string) (x : parameter) : py classes unit :=
  fun cs => match resolve cs (mro cs c) a with
            | Some (owner, l) => class_setattr owner a (l ++ [x])%list cs
            | None => (Raise AttributeError, cs)
            end.

(** [dir(c)]: the names defined by the class and its ancestors, sorted. *)
Definition class_dir (c : nat) : py classes (list string) :=
  gets (fun cs =>
    sorted (elements (⋃ ((fun k => dom (cls_dict (the_class cs k))) <$> mro cs c) : gset string))).

(** The loop of [__call__] over the inherited registries, with the lists
    collected so far and the names seen so far. *)
Fixpoint collect_parent_params (cls : nat) (parent_fields : list string)
    (parent_params : list (list parameter)) (parent_param_names : list string)
    : py classes (list (list parameter)) :=
  match parent_fields with
  | [] => ret parent_params
  | f :: rest =>
      p_params <- class_getattr cls f ;;
      let parent_params :=
        (parent_params ++
         [filter (fun p => p_name p ∉ parent_param_names) p_params])%list in
      let parent_param_names := (parent_param_names ++ (p_name <$> p_params))%list in
      collect_parent_params cls rest parent_params parent_param_names
  end.

(** [register_parameter.__call__(self, cls)] *)
Definition register_parameter_call (self : register_parameter) (cls : nat) : py classes nat :=
  let tcls := match rp_target_class self with
              | Some t => t
              | None => cls
              end in
  cls_name <- class_name cls ;;
  tcls_name <- class_name tcls ;;
  let section := cls_name +:+ ":" +:+ rp_section self in
  let field := PARAMETER_REGISTRY +:+ tcls_name in
  b <- class_hasattr tcls field ;;
  (if negb b then
     names <- class_dir cls ;;
     let parent_fields := filter (fun field => startswith field PARAMETER_REGISTRY = true) names in
     parent_params <- collect_parent_params cls parent_fields [] [] ;;
     class_setattr tcls field (concat parent_params)
   else ret tt) ;;;
  params <- class_getattr tcls field ;;
  let found := filter (fun p => p_name p = rp_name self) params in
  match found with
  | _ :: _ => raise ValueError
  | [] =>
      class_append tcls field
        {| p_section := section;
           p_name := rp_name self;
           p_default := rp_default self;
           p_type := rp_parameter_type self;
           p_description := rp_description self;
           p_cls := tcls_name |} ;;;
      ret cls
  end.

(** ** [ParametrizedMixin]: the class methods *)

(** [ParametrizedMixin.registered_parameters(cls)].  The set
    [parent_param_names] is created empty and stays empty. *)
Definition registered_parameters (cls : nat) : py classes (list parameter) :=
  cls_name <- class_name cls ;;
  let field := PARAMETER_REGISTRY +:+ cls_name in
  b <- class_hasattr cls field ;;
  (if negb b then
     names <- class_dir cls ;;
     let parent_fields := filter (fun field => startswith field PARAMETER_REGISTRY = true) names in
     let parent_param_names : list string := [] in
     lists <- map_m (fun f =>
                 p_params <- class_getattr cls f ;;
                 ret (filter (fun p => p_name p ∉ parent_param_names) p_params))
               parent_fields ;;
     class_setattr cls field (concat lists)
   else ret tt) ;;;
  class_getattr cls field.

(** The first parameter of a list with the given name. *)
Fixpoint first_named (name : string) (ps : list parameter) : option parameter :=
  match ps with
  | [] => None
  | p :: ps' => if bool_decide (p_name p = name) then Some p else first_named name ps'
  end.

(** [ParametrizedMixin.parameter_default(cls, name)] *)
Definition parameter_default (cls : nat) (name : string) : py classes value :=
  ps <- registered_parameters cls ;;
  ret (match first_named name ps with
       | Some p => p_default p
       | None => VNone
       end).

(** [ParametrizedMixin.parameter_type(cls, name)]; the result [None] of the
    Python function is [None] here, a type object [t] is [Some t]. *)
Definition parameter_type (cls : nat) (name : string) : py classes (option pytype) :=
  ps <- registered_parameters cls ;;
  ret (match first_named name ps with
       | Some p => Some (p_type p)
       | None => None
       end).

(** ** [ParametrizedMixin]: instances *)

(** A dict object: its items, and whether it is the ORM's change-tracking
    [MutableDict] (the kind the [params] column holds) or a plain dict. *)
Record dictobj := {
  is_mutable_dict : bool;
  items : gmap string value
}.

(** The store of a parametrized entity: the classes, the dict objects, the
    entity [self] and its class. *)
Record world := {
  w_classes : classes;
  w_dicts : gmap nat dictobj;
  w_self : instance;
  w_class : nat
}.

Definition set_w_classes (cs : classes) (w : world) : world :=
  {| w_classes := cs; w_dicts := w_dicts w; w_self := w_self w; w_class := w_class w |}.
Definition set_w_dicts (ds : gmap nat dictobj) (w : world) : world :=
  {| w_classes := w_classes w; w_dicts := ds; w_self := w_self w; w_class := w_class w |}.
Definition set_w_self (d : instance) (w : world) : world :=
  {| w_classes := w_classes w; w_dicts := w_dicts w; w_self := d; w_class := w_class w |}.

(** [bool(v)] *)
Definition truthy (ds : gmap nat dictobj) (v : value) : bool :=
  match v with
  | VNone => false
  | VBool b => b
  | VInt n => negb (n =? 0)
  | VStr s => negb (String.eqb s "")
  | VDict l =>
      match ds !! l with
      | Some d => negb (bool_decide (items d = ∅))
      | None => true
      end
  end.

(** [v == JSON.NULL]: [JSON.NULL] is a constant of the ORM and none of the
    values above. *)
Definition eq_JSON_NULL (v : value) : bool := false.

(** A column attribute that was never assigned reads [None]. *)
Definition column (d : instance) (a : string) : value := default VNone (d !! a).

(** A new dict object. *)
Definition new_dict (m : bool) (its : gmap string value) : py world nat :=
  fun w => let l := fresh (dom (w_dicts w)) in
           (Ok l, set_w_dicts (<[l := {| is_mutable_dict := m; items := its |}]> (w_dicts w)) w).

(** The function wrapped by [@lazy_property]: [ParametrizedMixin.parameters]. *)
Definition parameters_function : @function world :=
  {| __name__ := "parameters";
     call :=
       params <- gets (fun w => column (w_self w) "params") ;;
       t <- gets (fun w => truthy (w_dicts w) params) ;;
       if negb t || eq_JSON_NULL params then
         l <- new_dict false ∅ ;; ret (VDict l)
       else ret params |}.

(** [self.parameters] *)
Definition parameters : py world value :=
  lazy_property w_self set_w_self parameters_function.

(** [d.get(name, default)] *)
Definition dict_get (d : value) (name : string) (default_ : value) : py world value :=
  match d with
  | VDict l =>
      fun w => match w_dicts w !! l with
               | Some o => (Ok (default default_ (items o !! name)), w)
               | None => (Raise AttributeError, w)
               end
  | _ => raise AttributeError
  end.

(** [d[name] = v] *)
Definition dict_setitem (d : value) (name : string) (v : value) : py world unit :=
  match d with
  | VDict l =>
      fun w => match w_dicts w !! l with
               | Some o =>
                   (Ok tt, set_w_dicts (<[l := {| is_mutable_dict := is_mutable_dict o;
                                                  items := <[name := v]> (items o) |}]> (w_dicts w)) w)
               | None => (Raise TypeError, w)
               end
  | _ => raise TypeError
  end.

(** [self.params = v].  The column is declared with
    [MutableDict.as_mutable(JSON)]: a [MutableDict] or [None] is stored as it
    is, a plain dict is copied into a new [MutableDict], anything else is
    refused. *)
Definition assign_params (v : value) : py world unit :=
  match v with
  | VNone => setattr w_self set_w_self "params" VNone
  | VDict l =>
      o <- gets (fun w => w_dicts w !! l) ;;
      match o with
      | Some o =>
          if is_mutable_dict o then setattr w_self set_w_self "params" (VDict l)
          else l' <- new_dict true (items o) ;; setattr w_self set_w_self "params" (VDict l')
      | None => raise ValueError
      end
  | _ => raise ValueError
  end.

(** [ParametrizedMixin.__init__(self, params={})] *)
Definition ParametrizedMixin_init (params : value) : py world unit :=
  assign_params params.

(** [ParametrizedMixin.get(self, name, default=None)] *)
Definition get (name : string) (default_ : value) : py world value :=
  view <- parameters ;;
  t <- gets (fun w => truthy (w_dicts w) default_) ;;
  d <- (if t then ret default_
        else cls <- gets w_class ;;
             zoom w_classes set_w_classes (parameter_default cls name)) ;;
  dict_get view name d.

(** [isinstance(t, u)] for a type object [t]: a type object is an instance
    of [type], which derives from [object] alone. *)
Definition isinstance_of_type_object (t u : pytype) : bool := bool_decide (u = object_t).

(** [ParametrizedMixin.set(self, name, value)]; returning [self] is
    returning [tt]. *)
Definition set (name : string) (v : value) : py world unit :=
  cls <- gets w_class ;;
  registered_type <- zoom w_classes set_w_classes (parameter_type cls name) ;;
  match registered_type with
  | None => raise ValueError
  | Some registered_type =>
      if negb (isinstance v registered_type)
         && negb (isinstance_of_type_object registered_type NoneType)
      then raise ValueError
      else
        view <- parameters ;;
        dict_setitem view name v ;;;
        invalidate w_self set_w_self (Some name) ;;;
        view <- parameters ;;
        assign_params view ;;;
        ret tt
  end.

(** ** The tables and the session *)

(** A row of table [versions]. *)
Module Versions.
Record row := {
  id : Z;
  class_name : string;
  record_name : string;
  max_version : Z
}.
End Versions.

(** A row of the table of a versioned class, with the columns the mixin
    declares: [id], [name], [version]. *)
Record entity_row := {
  row_id : Z;
  row_name : string;
  row_version : Z
}.

(** An SQL expression over the columns of [versions], evaluated by the
    database against the row it updates. *)
Inductive sqlexpr :=
| Column_max_version
| Literal (n : Z)
| Plus (a b : sqlexpr).

Fixpoint eval_sql (r : Versions.row) (e : sqlexpr) : Z :=
  match e with
  | Column_max_version => Versions.max_version r
  | Literal n => n
  | Plus a b => eval_sql r a + eval_sql r b
  end.

(** What the session holds for the next flush. *)
Inductive pending :=
| Insert_versions (r : Versions.row)
| Set_max_version (id : Z) (e : sqlexpr).

(** The database, the session [db.session] and the entity [self]: the two
    tables, the changes waiting for the flush, the entity's attributes,
    whether the entity is persistent in the session, and the name of its
    class. *)
Record session := {
  versions : list Versions.row;
  table : list entity_row;
  pending_ops : list pending;
  obj : instance;
  attached : bool;
  tc_name : string
}.

Definition set_versions (vs : list Versions.row) (s : session) : session :=
  {| versions := vs; table := table s; pending_ops := pending_ops s;
     obj := obj s; attached := attached s; tc_name := tc_name s |}.
Definition set_table (t : list entity_row) (s : session) : session :=
  {| versions := versions s; table := t; pending_ops := pending_ops s;
     obj := obj s; attached := attached s; tc_name := tc_name s |}.
Definition set_pending_ops (ops : list pending) (s : session) : session :=
  {| versions := versions s; table := table s; pending_ops := ops;
     obj := obj s; attached := attached s; tc_name := tc_name s |}.
Definition set_obj (d : instance) (s : session) : session :=
  {| versions := versions s; table := table s; pending_ops := pending_ops s;
     obj := d; attached := attached s; tc_name := tc_name s |}.
Definition set_attached (b : bool) (s : session) : session :=
  {| versions := versions s; table := table s; pending_ops := pending_ops s;
     obj := obj s; attached := b; tc_name := tc_name s |}.

(** An integer as the database driver sends it; [bool] is an [int]. *)
Definition as_int (v : value) : option Z :=
  match v with
  | VInt n => Some n
  | VBool b => Some (Z.b2z b)
  | _ => None
  end.

(** The entity's row, when its attributes fit the columns. *)
Definition obj_row (d : instance) : option entity_row :=
  match as_int (column d "id"), column d "name", as_int (column d "version") with
  | Some i, VStr n, Some v => Some {| row_id := i; row_name := n; row_version := v |}
  | _, _, _ => None
  end.

(** The next value of an auto-increment key. *)
Definition next_id (ids : list Z) : Z := 1 + foldr Z.max 0 ids.

Definition apply_pending (vs : list Versions.row) (op : pending) : list Versions.row :=
  match op with
  | Insert_versions r => (vs ++ [r])%list
  | Set_max_version i e =>
      (fun r => if Versions.id r =? i
                then {| Versions.id := Versions.id r;
                        Versions.class_name := Versions.class_name r;
                        Versions.record_name := Versions.record_name r;
                        Versions.max_version := eval_sql r e |}
                else r) <$> vs
  end.

(** [UPDATE ... WHERE id = i] of the entity's table. *)
Definition update_row (r : entity_row) (t : list entity_row) : list entity_row :=
  (fun r' => if row_id r' =? row_id r then r else r') <$> t.

(** [db.session.commit()]: the waiting changes of [versions] are written in
    the order they were made, and a persistent entity is written to its
    row.  When the database refuses, nothing is committed. *)
Definition commit : py session unit :=
  fun s =>
    let vs := foldl apply_pending (versions s) (pending_ops s) in
    if attached s then
      match obj_row (obj s) with
      | Some r =>
          if bool_decide (row_id r ∈ row_id <$> table s)
          then (Ok tt, set_pending_ops [] (set_table (update_row r (table s)) (set_versions vs s)))
          else (Raise DatabaseError, s)
      | None => (Raise DatabaseError, s)
      end
    else (Ok tt, set_pending_ops [] (set_versions vs s)).

(** ** [Versions] *)

(** A [Versions] object in the session is known by its key. *)

(** [db.session.query(Versions).filter(Versions.class_name == c,
    Versions.record_name == n).first()] *)
Definition query_versions_first (c n : string) : py session (option Versions.row) :=
  gets (fun s => head (filter (fun r => Versions.class_name r = c /\ Versions.record_name r = n)
                              (versions s))).

(** [Versions.current_max_version(self)], [self] being the row with key
    [self_id].  [Versions.max_version + 1] is an expression over the column,
    which the flush hands to the database; the attribute is read back from
    the row afterwards. *)
Definition current_max_version (self_id : Z) : py session Z :=
  modify (fun s => set_pending_ops
            (pending_ops s ++ [Set_max_version self_id (Plus Column_max_version (Literal 1))])%list s) ;;;
  commit ;;;
  r <- gets (fun s => head (filter (fun r => Versions.id r = self_id) (versions s))) ;;
  match r with
  | Some r => ret (Versions.max_version r)
  | None => raise DatabaseError
  end.

(** ** [VersionedMixin] *)

(** The names the class body of [VersionedMixin] defines. *)
Definition VersionedMixin_names : list string :=
  ["__versioned__"; "version_delimiter"; "id"; "name"; "version";
   "__init__"; "__repr__"; "__str__"; "set_version"; "new_version"].

(** *** Attributes found through the entity's type *)

(** [hasattr(self, key)] and [setattr(self, key, value)] look the name up in
    the type of the entity first: its class, the mixins, [db.Model],
    [object].  What they find there, as far as the two calls go:
    - nothing: the attribute is one of the instance, if at all;
    - an attribute for which no code of the type runs and which is assigned
      on the instance: a class attribute such as [__doc__] or
      [version_delimiter], a method, a mapped column.  [hasattr] is true;
    - a descriptor with [__get__] only and code of its own: the attribute
      of the instance comes first, the descriptor is read when there is
      none; an assignment stores on the instance;
    - a descriptor with [__set__] ([__class__], [__dict__], a property):
      read through [get], assigned through [set_], whatever the instance
      holds.
    Of a read, the exception and the effect on the instance matter here,
    not the value. *)
Inductive type_attr :=
| absent
| stored
| non_data_descriptor (get : py instance unit)
| data_descriptor (get : py instance unit) (set_ : value -> py instance unit).

(** What [hasattr] makes of a read: true when it returns, false when it
    raises [AttributeError]; another exception is not caught. *)
Definition found {S} (read : py S unit) : py S bool :=
  try_except (read ;;; ret true)
    (fun e => match e with
              | AttributeError => ret false
              | e => raise e
              end).

(** [hasattr(self, a)] for an entity whose type is [tc]. *)
Definition entity_hasattr (tc : string -> type_attr) (a : string) : py session bool :=
  match tc a with
  | data_descriptor get _ => found (zoom obj set_obj get)
  | non_data_descriptor get =>
      b <- hasattr obj a ;;
      if b then ret true else found (zoom obj set_obj get)
  | stored => ret true
  | absent => hasattr obj a
  end.

(** [setattr(self, a, v)] for an entity whose type is [tc]. *)
Definition entity_setattr (tc : string -> type_attr) (a : string) (v : value)
  : py session unit :=
  match tc a with
  | data_descriptor _ set_ => zoom obj set_obj (set_ v)
  | _ => setattr obj set_obj a v
  end.

(** [VersionedMixin.__init__(self, name='', version=None)] *)
Definition VersionedMixin_init (name version : value) : py session unit :=
  setattr obj set_obj "name" name ;;;
  if negb (bool_decide (version = VNone)) then
    if isinstance version int_t then setattr obj set_obj "version" version
    else raise ValueError
  else ret tt.

(** [func.max(tc.version)] over the rows with [tc.name == n]; [None] when
    there is no such row. *)
Definition query_max_version (n : string) : py session (option Z) :=
  gets (fun s =>
    match row_version <$> filter (fun r => row_name r = n) (table s) with
    | [] => None
    | v :: vs => Some (foldr Z.max v vs)
    end).

(** [VersionedMixin.set_version(self)].  The name sent to the database is a
    string; another value is refused there. *)
Definition set_version : py session unit :=
  tc <- gets tc_name ;;
  name <- gets (fun s => column (obj s) "name") ;;
  match name with
  | VStr name =>
      found <- query_versions_first tc name ;;
      version <- match found with
                 | Some r => ret (Versions.id r)
                 | None =>
                     v <- query_max_version name ;;
                     i <- gets (fun s => next_id (Versions.id <$> versions s)) ;;
                     modify (fun s => set_pending_ops
                       (pending_ops s ++
                        [Insert_versions
                           {| Versions.id := i;
                              Versions.class_name := tc;
                              Versions.record_name := name;
                              Versions.max_version :=
                                match v with
                                | Some v => if v =? 0 then 0 else v
                                | None => 0
                                end |}])%list s) ;;;
                     commit ;;;
                     ret i
                 end ;;
      n <- current_max_version version ;;
      setattr obj set_obj "version" (VInt n)
  | _ => raise DatabaseError
  end.

(** [make_transient(self)] *)
Definition make_transient : py session unit := modify (set_attached false).

(** The loop of [new_version]:
    [for key, value in kwargs.items():
         if hasattr(self, key) and value is not None:
             setattr(self, key, value)] *)
Definition apply_overrides (tc : string -> type_attr) (kwargs : list (string * value))
  : py session unit :=
  for_each kwargs (fun '(key, v) =>
    b <- entity_hasattr tc key ;;
    if b && negb (bool_decide (v = VNone)) then entity_setattr tc key v
    else ret tt).

(** [VersionedMixin.new_version(self, **kwargs)] for an entity whose type is
    [tc]; the result is [self], its attributes.  [self.id] is the mixin's
    column. *)
Definition new_version (tc : string -> type_attr) (kwargs : list (string * value))
  : py session instance :=
  set_version ;;;
  make_transient ;;;
  setattr obj set_obj "id" VNone ;;;
  apply_overrides tc kwargs ;;;
  gets obj.

(** The default of the column [version]. *)
Definition version_default : Z := 1.

(** [db.session.add(self); db.session.commit()] for the entity.  A
    persistent entity is updated by the commit.  A transient one is
    inserted: a key that is [None] is drawn from the auto-increment, a
    version that is [None] takes the column default
    ([version = Column(Integer, default=1, nullable=False)]), and both are
    set on the instance; the database refuses a key already in the table
    and a name that is not a string. *)
Definition save : py session unit :=
  fun s =>
    if attached s then commit s
    else
      let d := obj s in
      let key := match column d "id" with
                 | VNone => Some (next_id (row_id <$> table s))
                 | v => as_int v
                 end in
      let ver := match column d "version" with
                 | VNone => Some version_default
                 | v => as_int v
                 end in
      match key, column d "name", ver with
      | Some i, VStr n, Some v =>
          if bool_decide (i ∈ row_id <$> table s) then (Raise DatabaseError, s)
          else
            let r := {| row_id := i; row_name := n; row_version := v |} in
            commit (set_attached true
                      (set_obj (<["version" := VInt v]> (<["id" := VInt i]> d))
                         (set_table (table s ++ [r]) s)))
      | _, _, _ => (Raise DatabaseError, s)
      end.

(** ** Notions the statements use *)

#[global] Instance entity_row_eq_dec : EqDecision entity_row.
Proof. solve_decision. Defined.
#[global] Instance versions_row_eq_dec : EqDecision Versions.row.
Proof. solve_decision. Defined.

(** The owning class of a registration. *)
Definition target_class_of (self : register_parameter) (cls : nat) : nat :=
  match rp_target_class self with
  | Some t => t
  | None => cls
  end.

(** A counter row with another counter. *)
Definition with_max_version (r : Versions.row) (n : Z) : Versions.row :=
  {| Versions.id := Versions.id r;
     Versions.class_name := Versions.class_name r;
     Versions.record_name := Versions.record_name r;
     Versions.max_version := n |}.

(** Table [versions] with the counter of key [i] one higher. *)
Definition bump (i : Z) (vs : list Versions.row) : list Versions.row :=
  (fun r => if Versions.id r =? i then with_max_version r (Versions.max_version r + 1) else r) <$> vs.

(** The entity has nothing to flush: it is not in the session, or it is
    the copy of its row in a table with unique keys. *)
Definition in_sync (s : session) : bool :=
  negb (attached s) ||
  match obj_row (obj s) with
  | Some r => bool_decide (r ∈ table s) && bool_decide (NoDup (row_id <$> table s))
  | None => false
  end.




(** ** Sample classes, entities and sessions *)

(** An instance on its own is a store. *)
Definition whole (d : instance) : instance := d.
Definition replace_whole (d _ : instance) : instance := d.

(** A function that counts its executions in the attribute [n]. *)
Definition counting : @function instance :=
  {| __name__ := "f";
     call := fun d => let n := match d !! "n" with
                               | Some (VInt n) => n + 1
                               | _ => 1
                               end in
                      (Ok (VInt n), <["n" := VInt n]> d) |}.

(** Three classes: [A], [B(A)] and [C(B)]. *)
Definition class_A : nat := 0%nat.
Definition class_B : nat := 1%nat.
Definition class_C : nat := 2%nat.

Definition abc : classes :=
  <[class_C := {| cls_name := "C"; cls_ancestors := [class_B; class_A]; cls_dict := ∅ |}]>
  (<[class_B := {| cls_name := "B"; cls_ancestors := [class_A]; cls_dict := ∅ |}]>
  (<[class_A := {| cls_name := "A"; cls_ancestors := []; cls_dict := ∅ |}]> ∅)).

(** [@register_parameter(name='x', default=5)] and
    [@register_parameter(name='y', default='a')] *)
Definition reg_x : register_parameter := register_parameter_init "main" "x" (VInt 5) None "" None.
Definition reg_y : register_parameter := register_parameter_init "main" "y" (VStr "a") None "" None.
Definition reg_z : register_parameter := register_parameter_init "main" "z" (VBool true) None "" None.

Definition par_x : parameter :=
  {| p_section := "A:main"; p_name := "x"; p_default := VInt 5; p_type := int_t;
     p_description := ""; p_cls := "A" |}.
Definition par_y : parameter :=
  {| p_section := "B:main"; p_name := "y"; p_default := VStr "a"; p_type := str_t;
     p_description := ""; p_cls := "B" |}.
Definition par_z : parameter :=
  {| p_section := "C:main"; p_name := "z"; p_default := VBool true; p_type := bool_t;
     p_description := ""; p_cls := "C" |}.



(** The entity [foo] of class [Doc], loaded from its row of version 2; the
    counter of [(Doc, foo)] is at 2. *)
Definition doc_session : session :=
  {| versions := [ {| Versions.id := 1; Versions.class_name := "Doc";
                      Versions.record_name := "foo"; Versions.max_version := 2 |} ];
     table := [ {| row_id := 7; row_name := "foo"; row_version := 1 |};
                {| row_id := 8; row_name := "foo"; row_version := 2 |} ];
     pending_ops := [];
     obj := <["id" := VInt 8]> (<["name" := VStr "foo"]> (<["version" := VInt 2]> ∅));
     attached := true;
     tc_name := "Doc" |}.

(** The type of [Doc]: the names of the mixin's class body and the class
    attribute [__doc__] are assigned on the instance; [__class__] is read
    but takes a class only, which no value here is; [label] is a property
    without a setter whose getter raises [AttributeError] for an entity
    without the attribute [title]. *)
Definition Doc_type (a : string) : type_attr :=
  if bool_decide (a ∈ VersionedMixin_names) || bool_decide (a = "__doc__") then stored
  else if bool_decide (a = "__class__")
       then data_descriptor (ret tt) (fun _ => raise TypeError)
  else if bool_decide (a = "label")
       then data_descriptor (getattr id "title" ;;; ret tt)
                            (fun _ => raise AttributeError)
  else absent.

(** The entity of [doc_session] with its version edited in memory and not
    saved. *)
Definition edited_session : session :=
  set_obj (<["version" := VInt 5]> (obj doc_session)) doc_session.

(** A session with a new, empty object of class [Doc]. *)
Definition new_entity : session :=
  {| versions := []; table := []; pending_ops := []; obj := ∅;
     attached := false; tc_name := "Doc" |}.

(** An entity of class [A], where [x] is registered with default 5, with an
    empty document. *)
Definition entity_of_A : world :=
  {| w_classes := snd (register_parameter_call reg_x class_A abc);
     w_dicts := ∅; w_self := ∅; w_class := class_A |}.

(** ** Notions of the further properties *)

(** The parameter a decorator adds when applied to [cls]. *)
Definition new_parameter (self : register_parameter) (cls : nat) (cs : classes) : parameter :=
  {| p_section := cls_name (the_class cs cls) +:+ ":" +:+ rp_section self;
     p_name := rp_name self;
     p_default := rp_default self;
     p_type := rp_parameter_type self;
     p_description := rp_description self;
     p_cls := cls_name (the_class cs (target_class_of self cls)) |}.

(** Every registry list of every class holds one parameter per name. *)
Definition unique_names (cs : classes) : Prop :=
  forall c a l, cls_dict (the_class cs c) !! a = Some l -> NoDup (p_name <$> l).

(** The name of the registry attribute of a class. *)
Definition registry_field (cs : classes) (c : nat) : string :=
  PARAMETER_REGISTRY +:+ cls_name (the_class cs c).







(** A value that is a dict object of the store. *)
Definition is_dict (ds : gmap nat dictobj) (v : value) : bool :=
  match v with
  | VDict l => bool_decide (is_Some (ds !! l))
  | _ => false
  end.

(** A parametrized entity as the mixin leaves it: what is cached for
    [parameters], if anything, is a dict, and [params] is [None] or a
    dict. *)
Definition entity_ok (w : world) : bool :=
  match w_self w !! "__lazy_parameters" with
  | None => true
  | Some v => is_dict (w_dicts w) v
  end
  && match column (w_self w) "params" with
     | VNone => true
     | v => is_dict (w_dicts w) v
     end.

(** The counter row [set_version] finds for the name [n]. *)
Definition counter (s : session) (n : string) : option Versions.row :=
  head (filter (fun r => Versions.class_name r = tc_name s /\ Versions.record_name r = n)
               (versions s)).

(** What [set_version] seeds a new counter with: the largest version among
    the rows of the name, 0 when there is none. *)
Definition seed (s : session) (n : string) : Z :=
  match row_version <$> filter (fun r => row_name r = n) (table s) with
  | [] => 0
  | v :: vs => foldr Z.max v vs
  end.

(** A session at rest: unique keys in both tables, nothing waiting for the
    flush, the entity in step with its row. *)
Definition at_rest (s : session) : Prop :=
  NoDup (Versions.id <$> versions s) /\ NoDup (row_id <$> table s)
  /\ pending_ops s = [] /\ in_sync s = true.

(** No row of a name has a version above the counter of that name. *)
Definition dominated (s : session) : Prop :=
  forall n r row, counter s n = Some r -> row ∈ table s -> row_name row = n ->
    row_version row <= Versions.max_version r.

(** The pairs (name, version) of the entity's table. *)
Definition name_versions (t : list entity_row) : list (string * Z) :=
  (fun r => (row_name r, row_version r)) <$> t.

(** ** More samples *)

(** An instance with one cached lazy value and one plain attribute. *)
Definition cached_instance : instance := <["__lazy_f" := VInt 1]> (<["n" := VInt 1]> ∅).

(** [@register_parameter(name='parameters', default=1)], and an entity of
    class [A] decorated with it, with an empty document. *)
Definition reg_parameters : register_parameter :=
  register_parameter_init "main" "parameters" (VInt 1) None "" None.

Definition entity_with_parameters : world :=
  {| w_classes := snd (register_parameter_call reg_parameters class_A abc);
     w_dicts := ∅; w_self := ∅; w_class := class_A |}.

(** A new object of class [A] and the plain dict [{'a': 1}]. *)
Definition plain_doc_world : world :=
  {| w_classes := abc;
     w_dicts := {[ 0%nat := {| is_mutable_dict := false; items := {[ "a" := VInt 1 ]} |} ]};
     w_self := ∅; w_class := class_A |}.

(** The entity [foo] of class [Doc] at version 2, before any counter row
    exists. *)
Definition uncounted_session : session :=
  {| versions := [];
     table := [ {| row_id := 7; row_name := "foo"; row_version := 1 |};
                {| row_id := 8; row_name := "foo"; row_version := 2 |} ];
     pending_ops := [];
     obj := <["id" := VInt 8]> (<["name" := VStr "foo"]> (<["version" := VInt 2]> ∅));
     attached := true;
     tc_name := "Doc" |}.

(* ===================================================================== *)
(** * Theorems *)
(* ===================================================================== *)

(** ** Facts about the monad, sorting and prefixes *)

Lemma bind_ok {S A B} (m : py S A) (k : A -> py S B) s a s' :
  m s = (Ok a, s') -> bind m k s = k a s'.
Proof. intros H. unfold bind. now rewrite H. Qed.

Lemma bind_raise {S A B} (m : py S A) (k : A -> py S B) s e s' :
  m s = (Raise e, s') -> bind m k s = (Raise e, s').
Proof. intros H. unfold bind. now rewrite H. Qed.

Lemma insert_sorted_perm x l : insert_sorted x l ≡ₚ x :: l.
Proof.
  induction l as [|y l IH]; simpl; [done|].
  destruct (String.leb x y); [done|].
  rewrite IH. apply Permutation_swap.
Qed.

Lemma sorted_perm l : sorted l ≡ₚ l.
Proof.
  induction l as [|x l IH]; simpl; [done|].
  unfold sorted in *. simpl. rewrite insert_sorted_perm. now rewrite IH.
Qed.

Lemma startswith_app p s : startswith (p +:+ s) p = true.
Proof.
  unfold startswith. induction p as [|c p IH]; simpl.
  - now destruct s.
  - destruct (ascii_dec c c); [exact IH | congruence].
Qed.

Lemma lookup_delete_all l (d : instance) k :
  delete_all l d !! k = if bool_decide (k ∈ l) then None else d !! k.
Proof.
  unfold delete_all. revert d. induction l as [|a l IH]; intros d; simpl.
  - done.
  - rewrite IH. case_bool_decide as Hl; case_bool_decide as Hal; try done.
    + exfalso. apply Hal. now right.
    + apply elem_of_cons in Hal as [->|]; [apply lookup_delete_eq | done].
    + rewrite lookup_delete_ne; [done|]. intros ->. apply Hal. now left.
Qed.

Section AttributesFacts.
Context {S : Type}.
Variable self : S -> instance.
Variable set_self : instance -> S -> S.
(** [self] and [set_self] read and replace one component of the store. *)
Hypothesis self_set : forall d s, self (set_self d s) = d.
Hypothesis set_set : forall d d' s, set_self d (set_self d' s) = set_self d s.
Hypothesis set_self_id : forall s, set_self (self s) s = s.

Lemma for_each_delattr l s :
  NoDup l -> (forall a, a ∈ l -> is_Some (self s !! a)) ->
  for_each l (delattr self set_self) s = (Ok tt, set_self (delete_all l (self s)) s).
Proof.
  revert s. induction l as [|a l IH]; intros s Hnd Hin; simpl.
  - unfold ret. now rewrite set_self_id.
  - apply NoDup_cons in Hnd as [Hna Hnd].
    destruct (Hin a) as [v Hv]; [now left|].
    rewrite (bind_ok _ _ s tt (set_self (delete a (self s)) s)).
    2:{ unfold delattr. now rewrite Hv. }
    rewrite IH; [|done|].
    + now rewrite self_set, set_set.
    + intros b Hb. rewrite self_set, lookup_delete_ne; [apply Hin; now right|].
      intros ->. done.
Qed.

(** What [invalidate()] leaves on the instance: every attribute whose name
    starts with [__lazy_] is gone, every other one is as before. *)
Lemma invalidate_all s :
  exists s', invalidate self set_self None s = (Ok tt, s') /\
    forall a, self s' !! a = if startswith a "__lazy_" then None else self s !! a.
Proof.
  set (names := sorted (elements (dom (self s)))).
  set (lz := filter (fun name => startswith name "__lazy_" = true) names).
  exists (set_self (delete_all lz (self s)) s). split.
  - unfold invalidate. rewrite (bind_ok _ _ s names s); [|done].
    apply for_each_delattr.
    + apply NoDup_filter. unfold names. rewrite sorted_perm. apply NoDup_elements.
    + intros a Ha. apply list_elem_of_filter in Ha as [_ Ha].
      unfold names in Ha. rewrite sorted_perm in Ha.
      apply elem_of_elements in Ha. now apply elem_of_dom.
  - intros a. rewrite self_set, lookup_delete_all.
    case_bool_decide as Ha.
    + apply list_elem_of_filter in Ha as [-> _]. done.
    + destruct (startswith a "__lazy_") eqn:Hp; [|done].
      destruct (self s !! a) as [v|] eqn:Hv; [|done].
      exfalso. apply Ha. apply list_elem_of_filter. split; [done|].
      unfold names. rewrite sorted_perm. apply elem_of_elements, elem_of_dom. eauto.
Qed.

Lemma lazy_property_miss (f : function) s :
  self s !! ("__lazy_" +:+ __name__ f) = None ->
  lazy_property self set_self f s =
    (v <- call f ;; setattr self set_self ("__lazy_" +:+ __name__ f) v ;;; ret v) s.
Proof. intros H. unfold lazy_property, try_except, getattr. now rewrite H. Qed.

Lemma lazy_property_hit (f : function) s v :
  self s !! ("__lazy_" +:+ __name__ f) = Some v ->
  lazy_property self set_self f s = (Ok v, s).
Proof. intros H. unfold lazy_property, try_except, getattr. now rewrite H. Qed.
End AttributesFacts.

(** ** The lazy-value cache *)

Section LazyCache.
Context {S : Type}.
Variable self : S -> instance.
Variable set_self : instance -> S -> S.
Hypothesis self_set : forall d s, self (set_self d s) = d.
Hypothesis set_set : forall d d' s, set_self d (set_self d' s) = set_self d s.
Hypothesis set_self_id : forall s, set_self (self s) s = s.

(** C6.  For every instance [s] and every wrapped function [f], with
    [internal = "__lazy_" + f.__name__]:
    - a read while nothing is stored under [internal] executes [f] and stores
      its result under [internal] on the instance, where the next read finds
      it;
    - a read while [v] is stored under [internal] returns [v] and leaves the
      instance as it is, whatever the body of the wrapped function does: the
      body is not executed;
    - [invalidate()] succeeds, nothing is stored under [internal] afterwards,
      and the next read is the execution of [f] followed by the store. *)
Theorem lazy_property_caches (f : function) (s : S) :
  let internal := "__lazy_" +:+ __name__ f in
  (forall v s1, self s !! internal = None -> call f s = (Ok v, s1) ->
     lazy_property self set_self f s = (Ok v, set_self (<[internal := v]> (self s1)) s1)
     /\ self (set_self (<[internal := v]> (self s1)) s1) !! internal = Some v)
  /\ (forall v g, self s !! internal = Some v -> __name__ g = __name__ f ->
        lazy_property self set_self g s = (Ok v, s))
  /\ (exists s2, invalidate self set_self None s = (Ok tt, s2)
        /\ self s2 !! internal = None
        /\ lazy_property self set_self f s2 =
             (v <- call f ;; setattr self set_self internal v ;;; ret v) s2).
Proof.
  intros internal. split; [|split].
  - intros v s1 Hmiss Hcall. split.
    + rewrite lazy_property_miss by exact Hmiss.
      rewrite (bind_ok _ _ _ _ _ Hcall). reflexivity.
    + rewrite self_set. apply lookup_insert_eq.
  - intros v g Hhit Hname. apply lazy_property_hit. now rewrite Hname.
  - destruct (invalidate_all self set_self self_set set_set set_self_id s) as (s2 & Hinv & Hs2).
    exists s2. split; [exact Hinv|].
    assert (Hnone : self s2 !! internal = None).
    { rewrite Hs2. unfold internal. now rewrite startswith_app. }
    split; [exact Hnone|]. now apply lazy_property_miss.
Qed.

(** C8.  [invalidate(name)] on an instance that stores nothing under
    ["__lazy_" + name] does not raise and leaves the instance unchanged. *)
Theorem invalidate_absent_noop (name : string) (s : S) :
  self s !! ("__lazy_" +:+ name) = None ->
  invalidate self set_self (Some name) s = (Ok tt, s).
Proof.
  intros Hnone. unfold invalidate.
  rewrite (bind_ok _ _ s false s); [reflexivity|].
  unfold hasattr, gets. rewrite Hnone.
  rewrite bool_decide_eq_false_2; [reflexivity|]. now intros [? ?].
Qed.
End LazyCache.

Lemma lazy_property_caches_witness :
  lazy_property whole replace_whole counting ∅
  = (Ok (VInt 1), <["__lazy_f" := VInt 1]> (<["n" := VInt 1]> ∅)).
Proof.
  destruct (lazy_property_caches whole replace_whole
              (fun _ _ => eq_refl) (fun _ _ _ => eq_refl) (fun _ => eq_refl)
              counting ∅) as [Hfirst _].
  exact (proj1 (Hfirst (VInt 1) (<["n" := VInt 1]> ∅) eq_refl eq_refl)).
Defined.

Lemma invalidate_absent_noop_witness :
  invalidate whole replace_whole (Some "f") {["n" := VInt 1]} = (Ok tt, {["n" := VInt 1]}).
Proof.
  apply (invalidate_absent_noop whole replace_whole "f" {["n" := VInt 1]}).
  reflexivity.
Defined.

(** Two reads execute the function once; after [invalidate()] the third
    read executes it again. *)
Example lazy_reads_count :
  (a <- lazy_property whole replace_whole counting ;;
   b <- lazy_property whole replace_whole counting ;;
   invalidate whole replace_whole None ;;;
   c <- lazy_property whole replace_whole counting ;;
   ret (a, b, c)) ∅
  = (Ok (VInt 1, VInt 1, VInt 2), <["__lazy_f" := VInt 2]> (<["n" := VInt 2]> ∅)).
Proof. vm_compute. reflexivity. Qed.

(** ** The parameter registry *)

Lemma the_class_store c a l cs k :
  the_class (store_attr c a l cs) k =
    if bool_decide (k = c)
    then with_dict (the_class cs c) (<[a := l]> (cls_dict (the_class cs c)))
    else the_class cs k.
Proof.
  unfold the_class at 1, store_attr. case_bool_decide as H.
  - subst. now rewrite lookup_insert_eq.
  - now rewrite lookup_insert_ne by congruence.
Qed.

Lemma cls_name_store c a l cs k :
  cls_name (the_class (store_attr c a l cs) k) = cls_name (the_class cs k).
Proof. rewrite the_class_store. case_bool_decide; now subst. Qed.

Lemma mro_store c a l cs k : mro (store_attr c a l cs) k = mro cs k.
Proof. unfold mro. rewrite the_class_store. case_bool_decide; now subst. Qed.

Lemma cls_dict_store_eq c a l cs :
  cls_dict (the_class (store_attr c a l cs) c) !! a = Some l.
Proof.
  rewrite the_class_store, bool_decide_eq_true_2 by done. simpl.
  apply lookup_insert_eq.
Qed.

Lemma cls_dict_store_ne c a l cs k :
  k ≠ c -> cls_dict (the_class (store_attr c a l cs) k) = cls_dict (the_class cs k).
Proof. intros H. rewrite the_class_store. now rewrite bool_decide_eq_false_2. Qed.

Lemma resolve_defined cs order a o l :
  resolve cs order a = Some (o, l) -> cls_dict (the_class cs o) !! a = Some l.
Proof.
  induction order as [|k order IH]; simpl; [done|].
  destruct (cls_dict (the_class cs k) !! a) eqn:Hk; [|exact IH].
  intros [= <- <-]. exact Hk.
Qed.

(** Storing under [a] in the class that defines [a] first replaces what the
    lookup finds, and the owner stays the owner. *)
Lemma resolve_store_owner cs order a o l0 l :
  resolve cs order a = Some (o, l0) ->
  resolve (store_attr o a l cs) order a = Some (o, l).
Proof.
  induction order as [|k order IH]; simpl; [done|].
  destruct (cls_dict (the_class cs k) !! a) eqn:Hk.
  - intros [= <- <-]. now rewrite cls_dict_store_eq.
  - intros Hres. destruct (decide (k = o)) as [->|Hne].
    + apply resolve_defined in Hres. congruence.
    + rewrite cls_dict_store_ne, Hk by done. now apply IH.
Qed.

Lemma resolve_store_head cs c rest a l :
  resolve (store_attr c a l cs) (c :: rest) a = Some (c, l).
Proof. simpl. now rewrite cls_dict_store_eq. Qed.

Lemma resolve_is_Some cs order a k :
  k ∈ order -> is_Some (cls_dict (the_class cs k) !! a) -> is_Some (resolve cs order a).
Proof.
  induction order as [|k' order IH]; simpl; intros Hin Hk.
  - now apply elem_of_nil in Hin.
  - destruct (cls_dict (the_class cs k') !! a) eqn:Hk'; [eauto|].
    apply elem_of_cons in Hin as [->|Hin]; [|now apply IH].
    rewrite Hk' in Hk. now destruct Hk.
Qed.

(** Every name of [dir(c)] is found by [getattr(c, _)]. *)
Lemma class_dir_resolves c cs names cs' f :
  class_dir c cs = (Ok names, cs') -> f ∈ names ->
  cs' = cs /\ is_Some (resolve cs (mro cs c) f).
Proof.
  unfold class_dir, gets. intros [= <- <-] Hf. split; [done|].
  rewrite sorted_perm in Hf. apply elem_of_elements in Hf.
  change (f ∈ (⋃ ((fun k => dom (cls_dict (the_class cs k))) <$> mro cs c) : gset string)) in Hf.
  apply elem_of_union_list in Hf as (X & HX & Hf).
  apply list_elem_of_fmap in HX as (k & -> & Hk).
  apply (resolve_is_Some _ _ _ k Hk). now apply elem_of_dom.
Qed.



(** C3, at the classes [A] decorated with [x], [B(A)] decorated with [y] and
    [C(B)] not decorated (three registrations of pairwise distinct names
    would do as well): [C.registered_parameters()] holds the parameter [x]
    twice. *)
Theorem registered_parameters_duplicates :
  fst ((register_parameter_call reg_x class_A ;;;
        register_parameter_call reg_y class_B ;;;
        registered_parameters class_C) abc)
  = Ok [par_x; par_x; par_y].
Proof. vm_compute. reflexivity. Qed.

(** The decorator's own merge fills [parent_param_names] and keeps one
    parameter per name on the same classes. *)
Example register_parameter_call_merges :
  fst ((register_parameter_call reg_x class_A ;;;
        register_parameter_call reg_y class_B ;;;
        register_parameter_call reg_z class_C ;;;
        registered_parameters class_C) abc)
  = Ok [par_x; par_y; par_z].
Proof. vm_compute. reflexivity. Qed.

(** ** [ParametrizedMixin] *)

Lemma map_m_getattr_reads cls (seen : list string) fs cs :
  (forall f, f ∈ fs -> is_Some (resolve cs (mro cs cls) f)) ->
  exists ls,
    map_m (fun f => p_params <- class_getattr cls f ;;
                    ret (filter (fun p => p_name p ∉ seen) p_params)) fs cs
    = (Ok ls, cs).
Proof.
  induction fs as [|f fs IH]; intros Hfs; simpl.
  - eexists. reflexivity.
  - destruct (Hfs f) as [[o l] Hres]; [now left|].
    destruct IH as [ls Hls]; [intros g Hg; apply Hfs; now right|].
    eexists. unfold bind, class_getattr, ret in *. rewrite Hres, Hls. reflexivity.
Qed.

(** [registered_parameters] always returns. *)
Lemma registered_parameters_total cls cs :
  exists ps cs', registered_parameters cls cs = (Ok ps, cs').
Proof.
  unfold registered_parameters. unfold bind at 1, class_name, gets.
  set (field := PARAMETER_REGISTRY +:+ cls_name (the_class cs cls)).
  unfold bind at 1. unfold class_hasattr at 1, gets.
  destruct (bool_decide (is_Some (resolve cs (mro cs cls) field))) eqn:Hb; simpl.
  - apply bool_decide_eq_true in Hb as [[o l] Hres].
    unfold bind, ret, class_getattr. rewrite Hres. eauto.
  - unfold bind at 1 2. unfold class_dir at 1, gets.
    edestruct (map_m_getattr_reads cls []) as [ls Hls]; [|unfold bind at 1; rewrite Hls].
    + intros f Hf. apply list_elem_of_filter in Hf as [_ Hf].
      eapply class_dir_resolves; [reflexivity | exact Hf].
    + unfold class_setattr, modify, bind, class_getattr.
      rewrite mro_store. unfold mro. rewrite resolve_store_head. eauto.
Qed.

Lemma first_named_None name ps :
  first_named name ps = None <-> name ∉ p_name <$> ps.
Proof.
  induction ps as [|p ps IH]; simpl.
  - split; [intros _ H; now apply elem_of_nil in H | done].
  - case_bool_decide as Hp.
    + split; [done|]. intros H. exfalso. apply H. rewrite Hp. now left.
    + rewrite IH, not_elem_of_cons. split; [intros H | now intros [_ H]].
      split; [|exact H]. intros E. apply Hp. now rewrite E.
Qed.

(** C4.  The registry of the entity's class is read (that always
    returns); when [name] is not among its names, or when the value is not an
    instance of the type registered for [name], [set(name, value)] raises
    [ValueError], and the entity and the dict objects, the document of
    [params] among them, are as before. *)
Theorem set_rejects (name : string) (v : value) (w : world) :
  exists ps cs' w',
    registered_parameters (w_class w) (w_classes w) = (Ok ps, cs') /\
    w_self w' = w_self w /\ w_dicts w' = w_dicts w /\
    (name ∉ p_name <$> ps -> set name v w = (Raise ValueError, w')) /\
    (forall p, first_named name ps = Some p -> isinstance v (p_type p) = false ->
       set name v w = (Raise ValueError, w')).
Proof.
  destruct (registered_parameters_total (w_class w) (w_classes w)) as (ps & cs' & Hreg).
  exists ps, cs', (set_w_classes cs' w).
  split; [exact Hreg|]. split; [reflexivity|]. split; [reflexivity|].
  assert (Hset : set name v w =
            match first_named name ps with
            | Some p =>
                if negb (isinstance v (p_type p))
                   && negb (isinstance_of_type_object (p_type p) NoneType)
                then (Raise ValueError, set_w_classes cs' w)
                else (view <- parameters ;; dict_setitem view name v ;;;
                      invalidate w_self set_w_self (Some name) ;;;
                      view <- parameters ;; assign_params view ;;; ret tt)
                       (set_w_classes cs' w)
            | None => (Raise ValueError, set_w_classes cs' w)
            end).
  { unfold set. unfold bind at 1 2, gets, zoom, parameter_type.
    unfold bind at 1. rewrite Hreg. unfold ret at 1.
    destruct (first_named name ps) as [p|]; [|reflexivity].
    destruct (negb (isinstance v (p_type p)) && _); reflexivity. }
  split.
  - intros Hnot. apply first_named_None in Hnot. now rewrite Hset, Hnot.
  - intros p Hp Hty. rewrite Hset, Hp, Hty. reflexivity.
Qed.

(** ** The session *)

Lemma update_row_fresh r t :
  row_id r ∉ row_id <$> t -> update_row r t = t.
Proof.
  unfold update_row. induction t as [|a t IH]; csimpl; [done|].
  rewrite not_elem_of_cons. intros [Ha Ht].
  rewrite IH by done. destruct (Z.eqb_spec (row_id a) (row_id r)); [congruence | done].
Qed.

Lemma update_row_same r t :
  r ∈ t -> NoDup (row_id <$> t) -> update_row r t = t.
Proof.
  induction t as [|a t IH]; csimpl; [done|].
  intros Hin Hnd. apply NoDup_cons in Hnd as [Ha Hnd].
  apply elem_of_cons in Hin as [<-|Hin].
  - rewrite Z.eqb_refl. f_equal. now apply update_row_fresh.
  - destruct (Z.eqb_spec (row_id a) (row_id r)) as [E|_].
    + exfalso. apply Ha. rewrite E. now apply list_elem_of_fmap_2.
    + f_equal. now apply IH.
Qed.

Lemma commit_in_sync s :
  in_sync s = true ->
  commit s = (Ok tt, {| versions := foldl apply_pending (versions s) (pending_ops s);
                        table := table s; pending_ops := []; obj := obj s;
                        attached := attached s; tc_name := tc_name s |}).
Proof.
  unfold in_sync, commit. destruct (attached s) eqn:Hatt; simpl.
  2:{ intros _. unfold set_pending_ops, set_versions; simpl. now rewrite Hatt. }
  destruct (obj_row (obj s)) as [r|]; [|done].
  intros H. apply andb_true_iff in H as [Hin Hnd].
  apply bool_decide_eq_true in Hin, Hnd.
  rewrite bool_decide_eq_true_2 by now apply list_elem_of_fmap_2.
  unfold set_pending_ops, set_table, set_versions; simpl.
  now rewrite update_row_same, Hatt.
Qed.

Lemma head_filter_elem {A} (P : A -> Prop) `{!forall x, Decision (P x)} (l : list A) x :
  head (filter P l) = Some x -> x ∈ l /\ P x.
Proof.
  induction l as [|a l IH]; simpl; [done|].
  rewrite filter_cons. destruct (decide (P a)) as [Ha|Ha]; simpl.
  - intros [= <-]. split; [now left | done].
  - intros Hh. destruct (IH Hh). split; [now right | done].
Qed.

Lemma head_filter_bump vs r :
  r ∈ vs -> NoDup (Versions.id <$> vs) ->
  head (filter (fun r' => Versions.id r' = Versions.id r) (bump (Versions.id r) vs))
  = Some (with_max_version r (Versions.max_version r + 1)).
Proof.
  unfold bump. induction vs as [|a vs IH]; csimpl; [intros H; now apply elem_of_nil in H|].
  intros Hin Hnd. apply NoDup_cons in Hnd as [Ha Hnd]. rewrite filter_cons.
  apply elem_of_cons in Hin as [<-|Hin].
  - rewrite Z.eqb_refl. simpl. now rewrite decide_True.
  - destruct (Z.eqb_spec (Versions.id a) (Versions.id r)) as [E|Hne].
    + exfalso. apply Ha. rewrite E. now apply list_elem_of_fmap_2.
    + rewrite decide_False by done. now apply IH.
Qed.

Lemma bump_elem vs r :
  r ∈ vs -> with_max_version r (Versions.max_version r + 1) ∈ bump (Versions.id r) vs.
Proof.
  intros Hin. unfold bump. apply list_elem_of_fmap.
  exists r. now rewrite Z.eqb_refl.
Qed.

Lemma current_max_version_run (s : session) (r : Versions.row) :
  r ∈ versions s ->
  NoDup (Versions.id <$> versions s) ->
  pending_ops s = [] ->
  in_sync s = true ->
  current_max_version (Versions.id r) s
  = (Ok (Versions.max_version r + 1),
     {| versions := bump (Versions.id r) (versions s); table := table s;
        pending_ops := []; obj := obj s; attached := attached s; tc_name := tc_name s |}).
Proof.
  intros Hin Hnd Hpend Hsync.
  unfold current_max_version. unfold bind at 1, modify.
  unfold bind at 1. rewrite commit_in_sync by exact Hsync.
  simpl. rewrite Hpend. simpl.
  unfold bind, gets. simpl.
  pose proof (head_filter_bump _ _ Hin Hnd) as Hh.
  unfold bump, with_max_version in Hh |- *. now rewrite Hh.
Qed.

(** C2.  In a session with nothing else to write, for every row [r] of
    table [versions] (keys are unique): [current_max_version()] returns
    [max_version + 1], and the table holds the row with that counter; the
    other rows, the entity's table and the entity are as before.  A row at 3
    returns 4 and is stored at 4. *)
Theorem current_max_version_increments (s : session) (r : Versions.row) :
  r ∈ versions s ->
  NoDup (Versions.id <$> versions s) ->
  pending_ops s = [] ->
  in_sync s = true ->
  current_max_version (Versions.id r) s
  = (Ok (Versions.max_version r + 1),
     {| versions := bump (Versions.id r) (versions s); table := table s;
        pending_ops := []; obj := obj s; attached := attached s; tc_name := tc_name s |})
  /\ with_max_version r (Versions.max_version r + 1) ∈ bump (Versions.id r) (versions s)
  /\ (Versions.max_version r = 3 ->
      fst (current_max_version (Versions.id r) s) = Ok 4
      /\ with_max_version r 4 ∈ versions (snd (current_max_version (Versions.id r) s))).
Proof.
  intros Hin Hnd Hpend Hsync.
  pose proof (current_max_version_run s r Hin Hnd Hpend Hsync) as Hrun.
  split; [exact Hrun|]. split; [now apply bump_elem|].
  intros H3. rewrite Hrun. simpl. rewrite H3. split; [reflexivity|].
  replace 4 with (Versions.max_version r + 1) by lia. now apply bump_elem.
Qed.

(** ** [VersionedMixin] *)











Lemma foldr_max_ge ids i : i ∈ ids -> i <= foldr Z.max 0 ids.
Proof.
  induction ids as [|a ids IH]; simpl; [intros H; now apply elem_of_nil in H|].
  intros H. apply elem_of_cons in H as [->|H]; [lia|]. specialize (IH H). lia.
Qed.

Lemma next_id_fresh ids : next_id ids ∉ ids.
Proof. intros H. apply foldr_max_ge in H. unfold next_id in H. lia. Qed.

(** Saving a transient entity without a key inserts one row, with the next
    key. *)
Lemma save_transient s n v :
  attached s = false ->
  column (obj s) "id" = VNone ->
  column (obj s) "name" = VStr n ->
  match column (obj s) "version" with
  | VNone => Some version_default
  | x => as_int x
  end = Some v ->
  save s = (Ok tt,
            {| versions := foldl apply_pending (versions s) (pending_ops s);
               table := table s ++ [{| row_id := next_id (row_id <$> table s);
                                       row_name := n; row_version := v |}];
               pending_ops := [];
               obj := <["version" := VInt v]>
                        (<["id" := VInt (next_id (row_id <$> table s))]> (obj s));
               attached := true; tc_name := tc_name s |}).
Proof.
  intros Hatt Hid Hname Hver. unfold save. rewrite Hatt, Hid, Hname, Hver.
  rewrite bool_decide_eq_false_2 by apply next_id_fresh.
  set (i := next_id (row_id <$> table s)).
  unfold commit. simpl.
  assert (Hrow : obj_row (<["version" := VInt v]> (<["id" := VInt i]> (obj s)))
                 = Some {| row_id := i; row_name := n; row_version := v |}).
  { unfold obj_row, column in *.
    rewrite lookup_insert_ne, lookup_insert_eq by done.
    rewrite !lookup_insert_ne by done. rewrite lookup_insert_eq.
    destruct (obj s !! "name") as [x|]; simpl in *; now subst. }
  rewrite Hrow. simpl.
  rewrite bool_decide_eq_true_2.
  2:{ rewrite fmap_app. apply elem_of_app. right. now left. }
  unfold set_pending_ops, set_table, set_versions. simpl.
  unfold update_row. rewrite fmap_app. simpl. rewrite Z.eqb_refl.
  f_equal. f_equal. f_equal.
  apply (update_row_fresh {| row_id := i; row_name := n; row_version := v |}).
  apply next_id_fresh.
Qed.

Lemma set_version_run (s : session) (n : string) (r : Versions.row) :
  column (obj s) "name" = VStr n ->
  head (filter (fun r => Versions.class_name r = tc_name s /\ Versions.record_name r = n)
               (versions s)) = Some r ->
  NoDup (Versions.id <$> versions s) ->
  pending_ops s = [] ->
  in_sync s = true ->
  set_version s
  = (Ok tt,
     {| versions := bump (Versions.id r) (versions s); table := table s;
        pending_ops := [];
        obj := <["version" := VInt (Versions.max_version r + 1)]> (obj s);
        attached := attached s; tc_name := tc_name s |}).
Proof.
  intros Hname Hfound Hnd Hpend Hsync.
  unfold set_version. unfold bind at 1 2, gets. rewrite Hname.
  unfold bind at 1. unfold query_versions_first, gets. rewrite Hfound.
  unfold bind at 1, ret. unfold bind.
  apply head_filter_elem in Hfound as [Hin _].
  rewrite (current_max_version_run s r Hin Hnd Hpend Hsync).
  reflexivity.
Qed.


Lemma current_max_version_increments_witness :
  fst (current_max_version 1 doc_session) = Ok 3.
Proof.
  destruct (current_max_version_increments doc_session
              {| Versions.id := 1; Versions.class_name := "Doc";
                 Versions.record_name := "foo"; Versions.max_version := 2 |}) as [Hrun _].
  - now left.
  - apply NoDup_singleton.
  - reflexivity.
  - vm_compute. reflexivity.
  - simpl in Hrun. now rewrite Hrun.
Defined.



(** The example of the specification, followed by the save: the new row has
    version 3 and a new key, the row of version 2 is as it was. *)
Example new_version_then_save :
  table (snd ((new_version Doc_type [("name", VStr "foo")] ;;; save) doc_session))
  = [ {| row_id := 7; row_name := "foo"; row_version := 1 |};
      {| row_id := 8; row_name := "foo"; row_version := 2 |};
      {| row_id := 9; row_name := "foo"; row_version := 3 |} ].
Proof. vm_compute. reflexivity. Qed.

(** An entity with an unsaved change is written to its row by the commit
    inside [set_version]: the row the entity was loaded from does not keep
    its version then. *)
Example new_version_flushes_unsaved_change :
  in_sync edited_session = false
  /\ table edited_session
     = [ {| row_id := 7; row_name := "foo"; row_version := 1 |};
         {| row_id := 8; row_name := "foo"; row_version := 2 |} ]
  /\ table (snd (new_version Doc_type [] edited_session))
     = [ {| row_id := 7; row_name := "foo"; row_version := 1 |};
         {| row_id := 8; row_name := "foo"; row_version := 5 |} ].
Proof. vm_compute. repeat split; reflexivity. Qed.

(** Overrides and the type of the entity: [__doc__], an attribute of the
    class only, is assigned on the instance; [__class__] is found and its
    assignment raises, after the counter went up and the entity was
    detached; the property [label], whose getter raises [AttributeError]
    here, is not found and its override is skipped; a name neither the
    type nor the instance has is skipped. *)
Example new_version_overrides_by_type :
  fst (new_version Doc_type [("__doc__", VStr "text")] doc_session)
  = Ok (<["__doc__" := VStr "text"]>
          (<["id" := VNone]> (<["name" := VStr "foo"]> (<["version" := VInt 3]> ∅))))
  /\ new_version Doc_type [("__class__", VInt 1)] doc_session
     = (Raise TypeError,
        {| versions := bump 1 (versions doc_session); table := table doc_session;
           pending_ops := [];
           obj := <["id" := VNone]> (<["name" := VStr "foo"]> (<["version" := VInt 3]> ∅));
           attached := false; tc_name := "Doc" |})
  /\ fst (new_version Doc_type [("label", VStr "l"); ("colour", VStr "red")] doc_session)
     = Ok (<["id" := VNone]> (<["name" := VStr "foo"]> (<["version" := VInt 3]> ∅))).
Proof. vm_compute. repeat split; reflexivity. Qed.

(** C9, as stated, fails: constructing with the empty name returns. *)
Lemma VersionedMixin_init_empty_name :
  VersionedMixin_init (VStr "") VNone new_entity
  = (Ok tt, set_obj {["name" := VStr ""]} new_entity).
Proof. vm_compute. reflexivity. Qed.

(** C9, amended.  The constructor assigns the name it is given, whatever it
    is (the empty string, the default, included) and does not fail for it;
    a version that is [None] is not assigned; a version that is an [int]
    ([bool] counts) is assigned; a version that is neither raises
    [ValueError]. *)
Theorem VersionedMixin_init_spec (name version : value) (s : session) :
  VersionedMixin_init name version s =
    if bool_decide (version = VNone) then
      (Ok tt, set_obj (<["name" := name]> (obj s)) s)
    else if isinstance version int_t then
      (Ok tt, set_obj (<["version" := version]> (<["name" := name]> (obj s))) s)
    else
      (Raise ValueError, set_obj (<["name" := name]> (obj s)) s).
Proof.
  unfold VersionedMixin_init, bind, setattr, modify.
  destruct (bool_decide (version = VNone)); simpl; [reflexivity|].
  destruct (isinstance version int_t); simpl; [|reflexivity].
  now destruct s.
Qed.

(** C10.  Constructing with [version=None] returns, whatever the name, and
    leaves the attribute [version] as it was: on a new object it is unset.
    Saving such a new entity (transient, no key, a string for a name)
    inserts its row with version 1, the column default, which is then the
    entity's version. *)
Theorem VersionedMixin_init_without_version (name : value) (s : session) :
  VersionedMixin_init name VNone s = (Ok tt, set_obj (<["name" := name]> (obj s)) s)
  /\ obj (set_obj (<["name" := name]> (obj s)) s) !! "version" = obj s !! "version"
  /\ (forall n, name = VStr n -> attached s = false ->
        column (obj s) "id" = VNone -> column (obj s) "version" = VNone ->
        exists s',
          (VersionedMixin_init name VNone ;;; save) s = (Ok tt, s')
          /\ table s' = (table s ++ [{| row_id := next_id (row_id <$> table s);
                                        row_name := n; row_version := 1 |}])%list
          /\ obj s' !! "version" = Some (VInt 1)).
Proof.
  assert (Hinit : VersionedMixin_init name VNone s
                  = (Ok tt, set_obj (<["name" := name]> (obj s)) s)) by reflexivity.
  split; [exact Hinit|]. split; [simpl; now rewrite lookup_insert_ne|].
  intros n -> Hatt Hid Hver. eexists. split; [|split].
  - unfold bind. rewrite Hinit.
    apply (save_transient _ n 1); simpl.
    + exact Hatt.
    + unfold column in *. now rewrite lookup_insert_ne.
    + unfold column. now rewrite lookup_insert_eq.
    + unfold column in *. rewrite lookup_insert_ne by done. now rewrite Hver.
  - reflexivity.
  - simpl. apply lookup_insert_eq.
Qed.

Example VersionedMixin_init_new_entity :
  obj (snd (VersionedMixin_init (VStr "foo") VNone new_entity)) !! "version" = None
  /\ table (snd ((VersionedMixin_init (VStr "foo") VNone ;;; save) new_entity))
     = [ {| row_id := 1; row_name := "foo"; row_version := 1 |} ]
  /\ fst (VersionedMixin_init (VStr "foo") (VStr "2") new_entity) = Raise ValueError
  /\ fst (VersionedMixin_init (VStr "foo") (VInt 2) new_entity) = Ok tt.
Proof. vm_compute. repeat split; reflexivity. Qed.

(** ** [ParametrizedMixin.get] *)

(** [self.parameters] always returns, and touches neither the classes nor
    the entity's class. *)
Lemma parameters_returns w :
  exists view w1,
    parameters w = (Ok view, w1) /\ w_classes w1 = w_classes w /\ w_class w1 = w_class w.
Proof.
  unfold parameters, lazy_property, try_except, getattr.
  destruct (w_self w !! ("__lazy_" +:+ __name__ parameters_function)) as [v|]; [eauto|].
  unfold parameters_function, call, bind, gets, new_dict, ret, setattr, modify.
  destruct (truthy (w_dicts w) (column (w_self w) "params")); simpl; eauto.
Qed.

(** What [get(name, default)] returns when the parsed document is a dict:
    the stored value when [name] is a key; otherwise [default] when it is
    truthy, and the registered default (or [None]) when it is falsy. *)
Lemma get_returns (name : string) (d : value) (w : world) :
  exists view w1 ps cs',
    parameters w = (Ok view, w1) /\
    registered_parameters (w_class w) (w_classes w) = (Ok ps, cs') /\
    forall l o, view = VDict l -> w_dicts w1 !! l = Some o ->
      fst (get name d w) =
        Ok (match items o !! name with
            | Some x => x
            | None =>
                if truthy (w_dicts w1) d then d
                else match first_named name ps with
                     | Some p => p_default p
                     | None => VNone
                     end
            end).
Proof.
  destruct (parameters_returns w) as (view & w1 & Hp & Hcs & Hc).
  destruct (registered_parameters_total (w_class w) (w_classes w)) as (ps & cs' & Hreg).
  exists view, w1, ps, cs'. split; [exact Hp|]. split; [exact Hreg|].
  intros l o -> Ho. unfold get. unfold bind at 1. rewrite Hp.
  unfold bind at 1, gets.
  destruct (truthy (w_dicts w1) d).
  - unfold bind, ret, dict_get. rewrite Ho. simpl. now destruct (items o !! name).
  - unfold bind at 1. unfold bind at 1. unfold zoom, parameter_default.
    rewrite Hc, Hcs. unfold bind at 1. rewrite Hreg. unfold ret, dict_get. simpl.
    rewrite Ho. simpl. now destruct (items o !! name).
Qed.

(** C5, at [get("x", d)] for [d] one of [0], [False] and [''] on an entity
    whose document has no key [x]: the registered default 5 is returned, not
    [d].  A truthy [d] is returned, and without [d] the registered default
    is. *)
Theorem get_drops_falsy_default :
  fst (get "x" (VInt 0) entity_of_A) = Ok (VInt 5)
  /\ fst (get "x" (VBool false) entity_of_A) = Ok (VInt 5)
  /\ fst (get "x" (VStr "") entity_of_A) = Ok (VInt 5)
  /\ fst (get "x" (VInt 3) entity_of_A) = Ok (VInt 3)
  /\ fst (get "x" VNone entity_of_A) = Ok (VInt 5).
Proof. vm_compute. repeat split; reflexivity. Qed.

(** [set] on the same entity: an unregistered name and a value of another
    type are refused and nothing is stored; a value of the registered type
    is stored and read back. *)
Example set_examples :
  fst (set "q" (VInt 1) entity_of_A) = Raise ValueError
  /\ w_self (snd (set "q" (VInt 1) entity_of_A)) = ∅
  /\ fst (set "x" (VStr "a") entity_of_A) = Raise ValueError
  /\ w_self (snd (set "x" (VStr "a") entity_of_A)) = ∅
  /\ fst ((set "x" (VInt 9) ;;; get "x" VNone) entity_of_A) = Ok (VInt 9).
Proof. vm_compute. repeat split; reflexivity. Qed.

(** ** More on the lazy-value cache *)

Lemma delete_all_filter (d : instance) (l : list string) :
  (forall a, a ∈ l <-> startswith a "__lazy_" = true /\ is_Some (d !! a)) ->
  delete_all l d = filter (fun kv => startswith kv.1 "__lazy_" = false) d.
Proof.
  intros Hl. apply map_eq. intros a. rewrite lookup_delete_all.
  destruct (filter _ d !! a) as [x|] eqn:Hf.
  - apply map_lookup_filter_Some in Hf as [Hd Hp]. simpl in Hp.
    rewrite bool_decide_eq_false_2; [done|].
    intros Ha. apply Hl in Ha as [Ha _]. congruence.
  - case_bool_decide as Ha; [done|].
    destruct (d !! a) as [x|] eqn:Hd; [|done].
    destruct (startswith a "__lazy_") eqn:Hp.
    + exfalso. apply Ha, Hl. eauto.
    + assert (filter (fun kv : string * value => startswith kv.1 "__lazy_" = false) d !! a
              = Some x) by (now apply map_lookup_filter_Some).
      congruence.
Qed.

Section LazyCacheMore.
Context {S : Type}.
Variable self : S -> instance.
Variable set_self : instance -> S -> S.
Hypothesis self_set : forall d s, self (set_self d s) = d.
Hypothesis set_set : forall d d' s, set_self d (set_self d' s) = set_self d s.
Hypothesis set_self_id : forall s, set_self (self s) s = s.

(** [invalidate()] never raises: it leaves on the instance exactly the
    attributes whose names do not start with [__lazy_], with their values,
    and a second [invalidate()] changes nothing. *)
Theorem invalidate_everything (s : S) :
  let kept := filter (fun kv => startswith kv.1 "__lazy_" = false) (self s) in
  invalidate self set_self None s = (Ok tt, set_self kept s)
  /\ invalidate self set_self None (set_self kept s) = (Ok tt, set_self kept s).
Proof.
  assert (Hrun : forall s,
    invalidate self set_self None s
    = (Ok tt, set_self (filter (fun kv => startswith kv.1 "__lazy_" = false) (self s)) s)).
  { clear s. intros s.
    set (names := sorted (elements (dom (self s)))).
    set (lz := filter (fun name => startswith name "__lazy_" = true) names).
    assert (Hlz : forall a, a ∈ lz <-> startswith a "__lazy_" = true /\ is_Some (self s !! a)).
    { intros a. unfold lz, names. rewrite list_elem_of_filter, sorted_perm.
      rewrite elem_of_elements, elem_of_dom. tauto. }
    unfold invalidate. rewrite (bind_ok _ _ s names s); [|done].
    fold lz. rewrite (for_each_delattr self set_self self_set set_set set_self_id).
    - now rewrite (delete_all_filter _ _ Hlz).
    - apply NoDup_filter. unfold names. rewrite sorted_perm. apply NoDup_elements.
    - intros a Ha. now apply Hlz in Ha as [_ Ha]. }
  intros kept. split; [apply Hrun|].
  rewrite Hrun, self_set, set_set. f_equal. f_equal.
  apply map_filter_id. intros a x Ha.
  now apply map_lookup_filter_Some in Ha as [_ Ha].
Qed.

(** [invalidate(name)] on an instance that stores a value under
    ["__lazy_" + name] removes that entry and nothing else; a second call
    changes nothing; a lazy property of another name that has its value
    stored still returns it without being executed. *)
Theorem invalidate_named_only (name : string) (s : S) (v : value) :
  self s !! ("__lazy_" +:+ name) = Some v ->
  let s' := set_self (delete ("__lazy_" +:+ name) (self s)) s in
  invalidate self set_self (Some name) s = (Ok tt, s')
  /\ invalidate self set_self (Some name) s' = (Ok tt, s')
  /\ (forall a, a <> "__lazy_" +:+ name -> self s' !! a = self s !! a)
  /\ (forall g vg, __name__ g <> name ->
        self s !! ("__lazy_" +:+ __name__ g) = Some vg ->
        lazy_property self set_self g s' = (Ok vg, s')).
Proof.
  intros Hv s'. split; [|split; [|split]].
  - unfold invalidate. rewrite (bind_ok _ _ s true s).
    + unfold delattr. now rewrite Hv.
    + unfold hasattr, gets. rewrite Hv. now rewrite bool_decide_eq_true_2 by eauto.
  - unfold invalidate. rewrite (bind_ok _ _ s' false s'); [done|].
    unfold hasattr, gets, s'. rewrite self_set, lookup_delete_eq.
    rewrite bool_decide_eq_false_2; [done|]. now intros [? ?].
  - intros a Ha. unfold s'. rewrite self_set. now apply lookup_delete_ne.
  - intros g vg Hg Hvg. apply lazy_property_hit.
    unfold s'. rewrite self_set, lookup_delete_ne; [done|].
    intros E. apply String.app_inj in E. congruence.
Qed.
End LazyCacheMore.

(** ** More on the parameter registry *)

Lemma collect_parent_params_spec cls fs acc seen cs :
  (forall f, f ∈ fs -> is_Some (resolve cs (mro cs cls) f)) ->
  exists pp,
    collect_parent_params cls fs acc seen cs = (Ok pp, cs) /\
    (unique_names cs ->
     NoDup (p_name <$> concat acc) ->
     (forall n, n ∈ p_name <$> concat acc -> n ∈ seen) ->
     NoDup (p_name <$> concat pp)).
Proof.
  revert acc seen. induction fs as [|f fs IH]; intros acc seen Hfs; simpl.
  - exists acc. split; [reflexivity | auto].
  - destruct (Hfs f) as [[o l] Hres]; [now left|].
    destruct (IH (acc ++ [filter (fun p => p_name p ∉ seen) l])%list
                 (seen ++ (p_name <$> l))%list) as (pp & Hrun & Hnd).
    { intros g Hg. apply Hfs. now right. }
    exists pp. split.
    + unfold bind, class_getattr. rewrite Hres. exact Hrun.
    + intros Huniq Hacc Hseen. apply Hnd; [exact Huniq| |].
      * rewrite concat_app, fmap_app. simpl. rewrite app_nil_r.
        apply NoDup_app. split; [exact Hacc|]. split.
        -- intros n Hn Hn'. apply Hseen in Hn.
           apply list_elem_of_fmap in Hn' as (p & -> & Hp).
           now apply list_elem_of_filter in Hp as [Hp _].
        -- eapply sublist_NoDup.
           ++ apply (Huniq o f l). eapply resolve_defined. exact Hres.
           ++ apply fmap_sublist, sublist_filter.
      * intros n. rewrite concat_app, fmap_app. simpl. rewrite app_nil_r.
        rewrite !elem_of_app. intros [Hn|Hn]; [left; now apply Hseen|right].
        apply list_elem_of_fmap in Hn as (p & -> & Hp).
        apply list_elem_of_filter in Hp as [_ Hp]. now apply list_elem_of_fmap_2.
Qed.

(** What applying a decorator does, in full: the registry of the owning
    class is built when it is missing; then the decorator either finds the
    name and raises, or appends its parameter to the list found. *)
Lemma register_parameter_call_run self cls cs :
  let tcls := target_class_of self cls in
  let field := PARAMETER_REGISTRY +:+ cls_name (the_class cs tcls) in
  exists cs0 o l,
    (cs0 = cs \/
     exists fs pp, (forall f, f ∈ fs -> is_Some (resolve cs (mro cs cls) f)) /\
                   collect_parent_params cls fs [] [] cs = (Ok pp, cs) /\
                   cs0 = store_attr tcls field (concat pp) cs) /\
    resolve cs0 (mro cs0 tcls) field = Some (o, l) /\
    register_parameter_call self cls cs =
      match filter (fun p => p_name p = rp_name self) l with
      | [] => (Ok cls, store_attr o field (l ++ [new_parameter self cls cs]) cs0)
      | _ :: _ => (Raise ValueError, cs0)
      end.
Proof.
  intros tcls field.
  assert (Hbuild : exists cs0,
    (cs0 = cs \/
     exists fs pp, (forall f, f ∈ fs -> is_Some (resolve cs (mro cs cls) f)) /\
                   collect_parent_params cls fs [] [] cs = (Ok pp, cs) /\
                   cs0 = store_attr tcls field (concat pp) cs) /\
    is_Some (resolve cs0 (mro cs0 tcls) field) /\
    (if negb (bool_decide (is_Some (resolve cs (mro cs tcls) field))) then
       names <- class_dir cls ;;
       parent_params <-
         collect_parent_params cls
           (filter (fun field => startswith field PARAMETER_REGISTRY = true) names) [] [] ;;
       class_setattr tcls field (concat parent_params)
     else ret tt) cs = (Ok tt, cs0)).
  { destruct (bool_decide (is_Some (resolve cs (mro cs tcls) field))) eqn:Hb; cbn [negb].
    - exists cs. apply bool_decide_eq_true in Hb. split; [now left|]. now split.
    - set (fs := filter (fun field => startswith field PARAMETER_REGISTRY = true)
                   (sorted (elements (⋃ ((fun k => dom (cls_dict (the_class cs k)))
                                           <$> mro cs cls) : gset string)))).
      assert (Hfs : forall f, f ∈ fs -> is_Some (resolve cs (mro cs cls) f)).
      { intros f Hf. apply list_elem_of_filter in Hf as [_ Hf].
        eapply class_dir_resolves; [reflexivity | exact Hf]. }
      destruct (collect_parent_params_spec cls fs [] [] cs Hfs) as (pp & Hcol & _).
      exists (store_attr tcls field (concat pp) cs). split; [|split].
      + right. exists fs, pp. auto.
      + rewrite mro_store. unfold mro. rewrite resolve_store_head. eauto.
      + unfold bind at 1. unfold class_dir at 1, gets. fold fs.
        unfold bind. rewrite Hcol. reflexivity. }
  destruct Hbuild as (cs0 & Hcs0 & [[o l] Hres] & Hrun).
  exists cs0, o, l. split; [exact Hcs0|]. split; [exact Hres|].
  unfold register_parameter_call. fold (target_class_of self cls). fold tcls.
  unfold bind at 1 2, class_name, gets. cbv beta iota zeta.
  subst field.
  unfold bind at 1. unfold class_hasattr at 1, gets.
  unfold bind at 1. rewrite Hrun.
  unfold bind at 1, class_getattr at 1. rewrite Hres.
  destruct (filter _ l) as [|? ?]; [|reflexivity].
  unfold bind, class_append. rewrite Hres. reflexivity.
Qed.

Lemma unique_names_store c a l cs :
  unique_names cs -> NoDup (p_name <$> l) -> unique_names (store_attr c a l cs).
Proof.
  intros Hu Hl k b l'. rewrite the_class_store. case_bool_decide as Hk; [|apply Hu].
  simpl. destruct (decide (a = b)) as [->|Hne].
  - rewrite lookup_insert_eq. now intros [= <-].
  - rewrite lookup_insert_ne by done. apply Hu.
Qed.

Lemma first_named_app_fresh name l x :
  name ∉ p_name <$> l -> p_name x = name -> first_named name (l ++ [x])%list = Some x.
Proof.
  intros Hl Hx. induction l as [|p l IH]; simpl.
  - now rewrite bool_decide_eq_true_2.
  - rewrite fmap_cons, not_elem_of_cons in Hl. destruct Hl as [Hp Hl].
    rewrite bool_decide_eq_false_2 by congruence. now apply IH.
Qed.

Lemma filter_name_nil name (l : list parameter) :
  filter (fun p => p_name p = name) l = [] -> name ∉ p_name <$> l.
Proof.
  intros Hf Hin. apply list_elem_of_fmap in Hin as (p & Hp & Hin).
  now apply (filter_nil_not_elem_of _ _ p Hf).
Qed.

(** Reading a registry that exists returns the list and changes nothing. *)
Lemma registered_parameters_hit cls cs o l :
  resolve cs (mro cs cls) (PARAMETER_REGISTRY +:+ cls_name (the_class cs cls)) = Some (o, l) ->
  registered_parameters cls cs = (Ok l, cs).
Proof.
  intros Hres. unfold registered_parameters.
  unfold bind at 1, class_name, gets. unfold bind at 1.
  unfold class_hasattr at 1, gets. rewrite Hres.
  rewrite bool_decide_eq_true_2 by eauto. cbn [negb].
  unfold bind, ret, class_getattr. now rewrite Hres.
Qed.

(** Applying a decorator keeps one parameter per name in every registry,
    whether it returns or raises. *)
Theorem register_parameter_call_keeps_unique_names (self : register_parameter)
    (cls : nat) (cs cs' : classes) (r : result nat) :
  unique_names cs ->
  register_parameter_call self cls cs = (r, cs') ->
  unique_names cs'.
Proof.
  intros Hu Hcall.
  destruct (register_parameter_call_run self cls cs) as (cs0 & o & l & Hcs0 & Hres & Hrun).
  assert (Hu0 : unique_names cs0).
  { destruct Hcs0 as [->|(fs & pp & Hfs & Hcol & ->)]; [exact Hu|].
    apply unique_names_store; [exact Hu|].
    destruct (collect_parent_params_spec cls fs [] [] cs Hfs) as (pp' & Hcol' & Hnd).
    rewrite Hcol in Hcol'. injection Hcol' as <-.
    apply Hnd; [exact Hu | constructor | intros n Hn; now apply elem_of_nil in Hn]. }
  rewrite Hrun in Hcall.
  destruct (filter _ l) as [|? ?] eqn:Hfound; injection Hcall as _ <-; [|exact Hu0].
  apply unique_names_store; [exact Hu0|].
  rewrite fmap_app. apply NoDup_app. split; [|split].
  - eapply (Hu0 o). eapply resolve_defined. exact Hres.
  - intros n Hn Hn'. simpl in Hn'. apply list_elem_of_singleton in Hn' as ->.
    now apply filter_name_nil in Hfound.
  - apply NoDup_singleton.
Qed.

Lemma register_lookup_core (self : register_parameter) (cls c : nat)
    (cs cs1 : classes) :
  register_parameter_call self cls cs = (Ok c, cs1) ->
  let tcls := target_class_of self cls in
  c = cls
  /\ (exists l, registered_parameters tcls cs1
                 = (Ok (l ++ [new_parameter self cls cs])%list, cs1))
  /\ parameter_default tcls (rp_name self) cs1 = (Ok (rp_default self), cs1)
  /\ parameter_type tcls (rp_name self) cs1 = (Ok (Some (rp_parameter_type self)), cs1).
Proof.
  intros Hcall tcls.
  destruct (register_parameter_call_run self cls cs) as (cs0 & o & l & Hcs0 & Hres & Hrun).
  fold tcls in Hcs0, Hres, Hrun.
  rewrite Hrun in Hcall.
  destruct (filter _ l) as [|? ?] eqn:Hfound; [|discriminate].
  injection Hcall as <- <-.
  set (field := PARAMETER_REGISTRY +:+ cls_name (the_class cs tcls)) in *.
  set (x := new_parameter self cls cs) in *.
  assert (Hname0 : cls_name (the_class cs0 tcls) = cls_name (the_class cs tcls)).
  { destruct Hcs0 as [->|(fs & pp & _ & _ & ->)]; [done | apply cls_name_store]. }
  assert (Hreg : registered_parameters tcls (store_attr o field (l ++ [x])%list cs0)
                 = (Ok (l ++ [x])%list, store_attr o field (l ++ [x])%list cs0)).
  { apply (registered_parameters_hit _ _ o).
    rewrite cls_name_store, Hname0, mro_store. fold field.
    eapply resolve_store_owner. exact Hres. }
  assert (Hfirst : first_named (rp_name self) (l ++ [x])%list = Some x).
  { apply first_named_app_fresh; [now apply filter_name_nil | reflexivity]. }
  split; [reflexivity|]. split; [eauto|]. split.
  - unfold parameter_default, bind. rewrite Hreg. unfold ret. now rewrite Hfirst.
  - unfold parameter_type, bind. rewrite Hreg. unfold ret. now rewrite Hfirst.
Qed.

(** A registration that returned is found again: the decorator returns the
    class it was applied to; the registry of the owning class ends with the
    new parameter; and looking the name up there gives the registered
    default and type. *)
Theorem register_then_lookup (self : register_parameter) (cls c : nat)
    (cs cs1 : classes) :
  register_parameter_call self cls cs = (Ok c, cs1) ->
  let tcls := target_class_of self cls in
  c = cls
  /\ (exists l, registered_parameters tcls cs1
                 = (Ok (l ++ [new_parameter self cls cs])%list, cs1))
  /\ parameter_default tcls (rp_name self) cs1 = (Ok (rp_default self), cs1)
  /\ parameter_type tcls (rp_name self) cs1 = (Ok (Some (rp_parameter_type self)), cs1).
Proof. apply register_lookup_core. Qed.

Lemma registered_parameters_stable (cls : nat) (cs cs1 : classes)
    (ps : list parameter) :
  registered_parameters cls cs = (Ok ps, cs1) ->
  registered_parameters cls cs1 = (Ok ps, cs1)
  /\ (forall k, k <> cls -> the_class cs1 k = the_class cs k).
Proof.
  unfold registered_parameters at 1.
  unfold bind at 1, class_name, gets. unfold bind at 1.
  unfold class_hasattr at 1, gets.
  set (field := PARAMETER_REGISTRY +:+ cls_name (the_class cs cls)).
  destruct (bool_decide (is_Some (resolve cs (mro cs cls) field))) eqn:Hb; cbn [negb].
  - apply bool_decide_eq_true in Hb as [[o l] Hres].
    unfold bind, ret, class_getattr. rewrite Hres. intros [= <- <-].
    split; [|done]. now apply (registered_parameters_hit _ _ o).
  - unfold bind at 1 2. unfold class_dir at 1, gets.
    edestruct (map_m_getattr_reads cls []) as [ls Hls]; [|unfold bind at 1; rewrite Hls].
    + intros f Hf. apply list_elem_of_filter in Hf as [_ Hf].
      eapply class_dir_resolves; [reflexivity | exact Hf].
    + unfold class_setattr, modify, bind, class_getattr.
      rewrite mro_store. unfold mro at 1. rewrite resolve_store_head.
      intros [= <- <-]. split.
      * apply (registered_parameters_hit _ _ cls).
        rewrite cls_name_store, mro_store. fold field. unfold mro.
        apply resolve_store_head.
      * intros k Hk. rewrite the_class_store. now rewrite bool_decide_eq_false_2.
Qed.

(** Reading the registry of a class builds it at most once: the first read
    touches no other class, and a second read returns the same list and
    changes nothing. *)
Theorem registered_parameters_cached (cls : nat) (cs cs1 : classes)
    (ps : list parameter) :
  registered_parameters cls cs = (Ok ps, cs1) ->
  registered_parameters cls cs1 = (Ok ps, cs1)
  /\ (forall k, k <> cls -> the_class cs1 k = the_class cs k).
Proof. apply registered_parameters_stable. Qed.

(** ** More on [ParametrizedMixin] *)

Lemma is_dict_Some ds v :
  is_dict ds v = true -> exists l o, v = VDict l /\ ds !! l = Some o.
Proof.
  destruct v; simpl; try discriminate.
  intros H. apply bool_decide_eq_true in H as [o Ho]. eauto.
Qed.

(** On a well-formed entity [self.parameters] is a dict of the store, which
    is cached afterwards; the classes, [params] and the dicts that existed
    are as before. *)
Lemma parameters_ok w :
  entity_ok w = true ->
  exists l o w1,
    parameters w = (Ok (VDict l), w1)
    /\ w_dicts w1 !! l = Some o
    /\ w_self w1 !! "__lazy_parameters" = Some (VDict l)
    /\ w_classes w1 = w_classes w /\ w_class w1 = w_class w
    /\ column (w_self w1) "params" = column (w_self w) "params"
    /\ (forall l' o', w_dicts w !! l' = Some o' -> w_dicts w1 !! l' = Some o').
Proof.
  intros Hok. apply andb_true_iff in Hok as [Hcache Hparams].
  unfold parameters, lazy_property, try_except, getattr.
  change ("__lazy_" +:+ __name__ parameters_function) with "__lazy_parameters".
  destruct (w_self w !! "__lazy_parameters") as [view|] eqn:Hview.
  - apply is_dict_Some in Hcache as (l & o & -> & Ho).
    exists l, o, w. repeat split; auto.
  - unfold parameters_function, call, bind, gets.
    destruct (truthy (w_dicts w) (column (w_self w) "params")) eqn:Ht; simpl.
    + destruct (column (w_self w) "params") as [| | | |lp] eqn:Hcol;
        try discriminate.
      apply bool_decide_eq_true in Hparams as [o Ho].
      exists lp, o, (set_w_self (<["__lazy_parameters" := VDict lp]> (w_self w)) w).
      unfold ret, setattr, modify. simpl. repeat split; auto.
      * apply lookup_insert_eq.
      * unfold column in *. now rewrite lookup_insert_ne.
    + set (l := fresh (dom (w_dicts w))).
      exists l, {| is_mutable_dict := false; items := ∅ |},
        (set_w_self (<["__lazy_parameters" := VDict l]> (w_self w))
           (set_w_dicts (<[l := {| is_mutable_dict := false; items := ∅ |}]> (w_dicts w)) w)).
      unfold new_dict, ret, setattr, modify. simpl. fold l. repeat split; auto.
      * apply lookup_insert_eq.
      * apply lookup_insert_eq.
      * unfold column. now rewrite lookup_insert_ne.
      * intros l' o' Hl'. rewrite lookup_insert_ne; [done|].
        intros <-. assert (l ∈ dom (w_dicts w)) by (apply elem_of_dom; eauto).
        now apply (is_fresh (dom (w_dicts w))).
Qed.

Lemma parameters_cached w v :
  w_self w !! "__lazy_parameters" = Some v -> parameters w = (Ok v, w).
Proof.
  intros H. unfold parameters, lazy_property, try_except, getattr.
  change ("__lazy_" +:+ __name__ parameters_function) with "__lazy_parameters".
  now rewrite H.
Qed.

(** The default [get] passes on is always computed. *)
Lemma get_default_returns name d w :
  exists dv cs',
    (if truthy (w_dicts w) d then ret d
     else cls <- gets w_class ;;
          zoom w_classes set_w_classes (parameter_default cls name)) w
    = (Ok dv, set_w_classes cs' w).
Proof.
  destruct (truthy (w_dicts w) d).
  - exists d, (w_classes w). unfold ret. now destruct w.
  - unfold bind, gets, zoom, parameter_default, bind.
    destruct (registered_parameters_total (w_class w) (w_classes w)) as (ps & cs' & Hreg).
    rewrite Hreg. unfold ret. eauto.
Qed.

Lemma get_cached name d w l o v :
  w_self w !! "__lazy_parameters" = Some (VDict l) ->
  w_dicts w !! l = Some o ->
  items o !! name = Some v ->
  fst (get name d w) = Ok v.
Proof.
  intros Hc Ho Hv. unfold get. unfold bind at 1. rewrite (parameters_cached _ _ Hc).
  destruct (get_default_returns name d w) as (dv & cs' & Hd).
  unfold bind at 1, gets at 1. unfold bind at 1. rewrite Hd.
  unfold dict_get. simpl. now rewrite Ho, Hv.
Qed.

Lemma lazy_parameters_ne name :
  name <> "parameters" -> "__lazy_parameters" <> "__lazy_" +:+ name.
Proof.
  intros H E. apply H.
  change "__lazy_parameters" with ("__lazy_" +:+ "parameters") in E.
  now apply String.app_inj in E.
Qed.

Lemma invalidate_named_world name w :
  exists w',
    invalidate w_self set_w_self (Some name) w = (Ok tt, w')
    /\ w_dicts w' = w_dicts w /\ w_classes w' = w_classes w /\ w_class w' = w_class w
    /\ forall a, a <> "__lazy_" +:+ name -> w_self w' !! a = w_self w !! a.
Proof.
  unfold invalidate, bind, hasattr, gets, delattr.
  destruct (w_self w !! ("__lazy_" +:+ name)) as [x|] eqn:Hx.
  - rewrite bool_decide_eq_true_2 by eauto. rewrite Hx.
    eexists. split; [reflexivity|]. simpl. repeat split; auto.
    intros a Ha. now apply lookup_delete_ne.
  - rewrite bool_decide_eq_false_2 by (now intros [? ?]).
    exists w. unfold ret. auto.
Qed.

(** Assigning a dict of the store to [params]: the column then holds a
    [MutableDict] with the same items (the dict itself when it is one, a
    copy otherwise); the dicts that existed and the other attributes stay. *)
Lemma assign_params_dict l o w :
  w_dicts w !! l = Some o ->
  exists lp w',
    assign_params (VDict l) w = (Ok tt, w')
    /\ column (w_self w') "params" = VDict lp
    /\ w_dicts w' !! lp = Some {| is_mutable_dict := true; items := items o |}
    /\ (forall l' o', w_dicts w !! l' = Some o' -> w_dicts w' !! l' = Some o')
    /\ (forall a, a <> "params" -> w_self w' !! a = w_self w !! a)
    /\ w_classes w' = w_classes w /\ w_class w' = w_class w.
Proof.
  intros Ho. unfold assign_params, bind, gets. rewrite Ho.
  destruct (is_mutable_dict o) eqn:Hm.
  - exists l. eexists. unfold setattr, modify. split; [reflexivity|]. simpl.
    split; [unfold column; now rewrite lookup_insert_eq|].
    split; [rewrite Ho; destruct o; simpl in *; now subst|].
    split; [auto|]. split; [|auto].
    intros a Ha. now apply lookup_insert_ne.
  - set (l' := fresh (dom (w_dicts w))).
    assert (Hfresh : forall k x, w_dicts w !! k = Some x -> l' <> k).
    { intros k x Hk <-. assert (l' ∈ dom (w_dicts w)) by (apply elem_of_dom; eauto).
      now apply (is_fresh (dom (w_dicts w))). }
    exists l'. eexists. unfold new_dict, setattr, modify. fold l'.
    split; [reflexivity|]. simpl.
    split; [unfold column; now rewrite lookup_insert_eq|].
    split; [apply lookup_insert_eq|].
    split; [|split; [|auto]].
    + intros k x Hk. rewrite lookup_insert_ne; [done | eauto].
    + intros a Ha. now apply lookup_insert_ne.
Qed.

Lemma set_get_core (name : string) (v : value) (w : world) :
  name <> "parameters" ->
  entity_ok w = true ->
  exists ps cs',
    registered_parameters (w_class w) (w_classes w) = (Ok ps, cs') /\
    forall p, first_named name ps = Some p -> isinstance v (p_type p) = true ->
      exists w1 lp op,
        set name v w = (Ok tt, w1)
        /\ column (w_self w1) "params" = VDict lp
        /\ w_dicts w1 !! lp = Some op
        /\ is_mutable_dict op = true
        /\ items op !! name = Some v
        /\ (forall d, fst (get name d w1) = Ok v)
        /\ entity_ok w1 = true.
Proof.
  intros Hname Hok.
  destruct (registered_parameters_total (w_class w) (w_classes w)) as (ps & cs' & Hreg).
  exists ps, cs'. split; [exact Hreg|]. intros p Hp Hty.
  set (w0 := set_w_classes cs' w).
  destruct (parameters_ok w0 Hok) as (l & o & wa & Hpar & Ho & Hcache & _ & _ & _ & _).
  set (o2 := {| is_mutable_dict := is_mutable_dict o; items := <[name := v]> (items o) |}).
  set (wb := set_w_dicts (<[l := o2]> (w_dicts wa)) wa).
  destruct (invalidate_named_world name wb) as (wc & Hinv & Hdc & _ & _ & Hselfc).
  assert (Hcachec : w_self wc !! "__lazy_parameters" = Some (VDict l)).
  { rewrite Hselfc by now apply lazy_parameters_ne. exact Hcache. }
  assert (Hoc : w_dicts wc !! l = Some o2).
  { rewrite Hdc. apply lookup_insert_eq. }
  destruct (assign_params_dict l o2 wc Hoc)
    as (lp & wd & Hassign & Hcol & Hlp & Hkeep & Hselfd & _ & _).
  assert (Hcached : w_self wd !! "__lazy_parameters" = Some (VDict l)).
  { rewrite Hselfd by done. exact Hcachec. }
  exists wd, lp, {| is_mutable_dict := true; items := items o2 |}.
  assert (Hset : set name v w = (Ok tt, wd)).
  { unfold set. unfold bind at 1 2, gets, zoom, parameter_type.
    unfold bind at 1. rewrite Hreg. unfold ret at 1. rewrite Hp, Hty. cbn [negb andb].
    fold w0. unfold bind at 1. rewrite Hpar.
    unfold bind at 1, dict_setitem. rewrite Ho. fold o2. fold wb.
    unfold bind at 1. rewrite Hinv.
    unfold bind at 1. rewrite (parameters_cached _ _ Hcachec).
    unfold bind. rewrite Hassign. reflexivity. }
  split; [exact Hset|]. split; [exact Hcol|]. split; [exact Hlp|].
  split; [reflexivity|]. split; [apply lookup_insert_eq|]. split.
  - intros d. apply (get_cached name d wd l o2 v Hcached).
    + now apply Hkeep.
    + apply lookup_insert_eq.
  - unfold entity_ok. rewrite Hcached, Hcol. simpl.
    rewrite (Hkeep l o2 Hoc), Hlp.
    rewrite !bool_decide_eq_true_2 by eauto. reflexivity.
Qed.

(** A successful [set] is read back.  On a well-formed entity, for a name
    other than ["parameters"] that is registered with a type the value is
    an instance of: [set(name, value)] returns; [params] is then a
    [MutableDict] holding the value under the name; [get(name, d)] returns
    the value for every [d]; and the entity is well formed again. *)
Theorem set_then_get (name : string) (v : value) (w : world) :
  name <> "parameters" ->
  entity_ok w = true ->
  exists ps cs',
    registered_parameters (w_class w) (w_classes w) = (Ok ps, cs') /\
    forall p, first_named name ps = Some p -> isinstance v (p_type p) = true ->
      exists w1 lp op,
        set name v w = (Ok tt, w1)
        /\ column (w_self w1) "params" = VDict lp
        /\ w_dicts w1 !! lp = Some op
        /\ is_mutable_dict op = true
        /\ items op !! name = Some v
        /\ (forall d, fst (get name d w1) = Ok v)
        /\ entity_ok w1 = true.
Proof. apply set_get_core. Qed.

Lemma parameters_frame w :
  exists view w1,
    parameters w = (Ok view, w1)
    /\ column (w_self w1) "params" = column (w_self w) "params"
    /\ (forall l o, w_dicts w !! l = Some o -> w_dicts w1 !! l = Some o)
    /\ (forall a, a <> "__lazy_parameters" -> w_self w1 !! a = w_self w !! a)
    /\ w_classes w1 = w_classes w.
Proof.
  unfold parameters, lazy_property, try_except, getattr.
  change ("__lazy_" +:+ __name__ parameters_function) with "__lazy_parameters".
  destruct (w_self w !! "__lazy_parameters") as [view|] eqn:Hview.
  - exists view, w. auto.
  - unfold parameters_function, call, bind, gets, new_dict, ret, setattr, modify.
    destruct (truthy (w_dicts w) (column (w_self w) "params")); simpl.
    + eexists _, _. split; [reflexivity|]. simpl. repeat split; auto.
      * unfold column. now rewrite lookup_insert_ne.
      * intros a Ha. now apply lookup_insert_ne.
    + eexists _, _. split; [reflexivity|]. simpl. repeat split; auto.
      * unfold column. now rewrite lookup_insert_ne.
      * intros l o Hl. rewrite lookup_insert_ne; [done|].
        intros <-. assert (fresh (dom (w_dicts w)) ∈ dom (w_dicts w))
          by (apply elem_of_dom; eauto).
        now apply (is_fresh (dom (w_dicts w))).
      * intros a Ha. now apply lookup_insert_ne.
Qed.

Lemma dict_get_state view name dv w : snd (dict_get view name dv w) = w.
Proof.
  destruct view; try reflexivity. simpl. now destruct (w_dicts w !! l).
Qed.

(** [get] is a read: whatever it returns or raises, [params], every dict
    object that existed and every attribute of the entity other than the
    cache entry [__lazy_parameters] are as before. *)
Theorem get_keeps_document (name : string) (d : value) (w : world) :
  let w' := snd (get name d w) in
  column (w_self w') "params" = column (w_self w) "params"
  /\ (forall l o, w_dicts w !! l = Some o -> w_dicts w' !! l = Some o)
  /\ (forall a, a <> "__lazy_parameters" -> w_self w' !! a = w_self w !! a).
Proof.
  destruct (parameters_frame w) as (view & w1 & Hpar & Hcol & Hd & Hs & _).
  destruct (get_default_returns name d w1) as (dv & cs' & Hdv).
  assert (Hsnd : snd (get name d w) = set_w_classes cs' w1).
  { unfold get. unfold bind at 1. rewrite Hpar.
    unfold bind at 1, gets at 1. unfold bind at 1. rewrite Hdv.
    apply dict_get_state. }
  intros w'. unfold w'. rewrite Hsnd. simpl. auto.
Qed.

Lemma truthy_false_kept (ds ds' : gmap nat dictobj) v :
  truthy ds v = false ->
  (forall l o, ds !! l = Some o -> ds' !! l = Some o) ->
  truthy ds' v = false.
Proof.
  destruct v as [| | | |l]; simpl; try done.
  destruct (ds !! l) as [o|] eqn:Ho; [|discriminate].
  intros Ht Hkeep. now rewrite (Hkeep l o Ho).
Qed.

Lemma parameters_miss_falsy w :
  w_self w !! "__lazy_parameters" = None ->
  truthy (w_dicts w) (column (w_self w) "params") = false ->
  parameters w
  = (Ok (VDict (fresh (dom (w_dicts w)))),
     set_w_self (<["__lazy_parameters" := VDict (fresh (dom (w_dicts w)))]> (w_self w))
       (set_w_dicts (<[fresh (dom (w_dicts w)) :=
                        {| is_mutable_dict := false; items := ∅ |}]> (w_dicts w)) w)).
Proof.
  intros Hmiss Hfalsy. unfold parameters, lazy_property, try_except, getattr.
  change ("__lazy_" +:+ __name__ parameters_function) with "__lazy_parameters".
  rewrite Hmiss. unfold parameters_function, call, bind, gets. rewrite Hfalsy.
  reflexivity.
Qed.

Lemma dict_setitem_run l o name v w :
  w_dicts w !! l = Some o ->
  dict_setitem (VDict l) name v w
  = (Ok tt, set_w_dicts (<[l := {| is_mutable_dict := is_mutable_dict o;
                                   items := <[name := v]> (items o) |}]> (w_dicts w)) w).
Proof. intros Ho. unfold dict_setitem. now rewrite Ho. Qed.

Lemma invalidate_named_hit name x w :
  w_self w !! ("__lazy_" +:+ name) = Some x ->
  invalidate w_self set_w_self (Some name) w
  = (Ok tt, set_w_self (delete ("__lazy_" +:+ name) (w_self w)) w).
Proof.
  intros Hx. unfold invalidate, bind, hasattr, gets, delattr.
  rewrite bool_decide_eq_true_2 by eauto. now rewrite Hx.
Qed.

(** A parameter that is itself named ["parameters"] is not stored on an
    entity whose document is empty and not yet parsed: [set] returns, but it
    invalidates the cached document it has just written to, so [params] is
    an empty [MutableDict] afterwards and [get] falls back to the registered
    default. *)
Theorem set_parameters_name_is_lost (v : value) (w : world) :
  w_self w !! "__lazy_parameters" = None ->
  truthy (w_dicts w) (column (w_self w) "params") = false ->
  exists ps cs',
    registered_parameters (w_class w) (w_classes w) = (Ok ps, cs') /\
    forall p, first_named "parameters" ps = Some p -> isinstance v (p_type p) = true ->
      exists w1 lp op,
        set "parameters" v w = (Ok tt, w1)
        /\ column (w_self w1) "params" = VDict lp
        /\ w_dicts w1 !! lp = Some op
        /\ items op = ∅
        /\ fst (get "parameters" VNone w1) = Ok (p_default p).
Proof.
  intros Hmiss Hfalsy.
  destruct (registered_parameters_total (w_class w) (w_classes w)) as (ps & cs' & Hreg).
  exists ps, cs'. split; [exact Hreg|]. intros p Hp Hty.
  set (w0 := set_w_classes cs' w).
  set (l := fresh (dom (w_dicts w0))).
  assert (Hl : forall k x, w_dicts w !! k = Some x -> l <> k).
  { intros k x Hk <-. assert (l ∈ dom (w_dicts w)) by (apply elem_of_dom; eauto).
    now apply (is_fresh (dom (w_dicts w))). }
  set (wa := set_w_self (<["__lazy_parameters" := VDict l]> (w_self w0))
               (set_w_dicts (<[l := {| is_mutable_dict := false; items := ∅ |}]>
                               (w_dicts w0)) w0)).
  assert (Hpar0 : parameters w0 = (Ok (VDict l), wa))
    by exact (parameters_miss_falsy w0 Hmiss Hfalsy).
  assert (Hla : w_dicts wa !! l = Some {| is_mutable_dict := false; items := ∅ |})
    by apply lookup_insert_eq.
  set (wb := set_w_dicts (<[l := {| is_mutable_dict := false;
                                    items := <["parameters" := v]> ∅ |}]> (w_dicts wa)) wa).
  assert (Hcacheb : w_self wb !! ("__lazy_" +:+ "parameters") = Some (VDict l))
    by apply lookup_insert_eq.
  set (wc := set_w_self (delete ("__lazy_" +:+ "parameters") (w_self wb)) wb).
  assert (Hmissc : w_self wc !! "__lazy_parameters" = None) by apply lookup_delete_eq.
  assert (Hfalsyc : truthy (w_dicts wc) (column (w_self wc) "params") = false).
  { replace (column (w_self wc) "params") with (column (w_self w) "params").
    - apply (truthy_false_kept _ _ _ Hfalsy). intros k x Hk. simpl.
      rewrite !lookup_insert_ne by (eapply Hl; exact Hk). exact Hk.
    - unfold column. simpl. now rewrite lookup_delete_ne, lookup_insert_ne. }
  set (l2 := fresh (dom (w_dicts wc))).
  set (we := set_w_self (<["__lazy_parameters" := VDict l2]> (w_self wc))
               (set_w_dicts (<[l2 := {| is_mutable_dict := false; items := ∅ |}]>
                               (w_dicts wc)) wc)).
  assert (Hparc : parameters wc = (Ok (VDict l2), we))
    by exact (parameters_miss_falsy wc Hmissc Hfalsyc).
  assert (Hl2 : w_dicts we !! l2 = Some {| is_mutable_dict := false; items := ∅ |})
    by apply lookup_insert_eq.
  destruct (assign_params_dict l2 _ we Hl2)
    as (lp & wd & Hassign & Hcol & Hlp & Hkeep & Hselfd & Hcsd & Hcd).
  exists wd, lp, {| is_mutable_dict := true; items := ∅ |}.
  assert (Hset : set "parameters" v w = (Ok tt, wd)).
  { unfold set. unfold bind at 1 2, gets, zoom, parameter_type.
    unfold bind at 1. rewrite Hreg. unfold ret at 1. rewrite Hp, Hty. cbn [negb andb].
    fold w0. unfold bind at 1. rewrite Hpar0.
    unfold bind at 1. rewrite (dict_setitem_run l _ _ _ wa Hla).
    change (set_w_dicts _ wa) with wb.
    unfold bind at 1. rewrite (invalidate_named_hit _ _ wb Hcacheb).
    change (set_w_self _ wb) with wc.
    unfold bind at 1. rewrite Hparc.
    unfold bind. rewrite Hassign. reflexivity. }
  split; [exact Hset|]. split; [exact Hcol|]. split; [exact Hlp|].
  split; [reflexivity|].
  assert (Hcached : w_self wd !! "__lazy_parameters" = Some (VDict l2)).
  { rewrite Hselfd by done. apply lookup_insert_eq. }
  destruct (registered_parameters_stable _ _ _ _ Hreg) as [Hagain _].
  unfold get. unfold bind at 1. rewrite (parameters_cached _ _ Hcached).
  unfold bind at 1, gets at 1. cbn [truthy].
  unfold bind at 1 2, gets, zoom, parameter_default, bind at 1.
  rewrite Hcd, Hcsd. simpl. rewrite Hagain.
  unfold ret, dict_get. simpl.
  rewrite (Hkeep l2 _ Hl2). simpl. rewrite lookup_empty, Hp. reflexivity.
Qed.

(** ** More on [Versions] and [VersionedMixin] *)

Lemma bump_ids i vs : Versions.id <$> bump i vs = Versions.id <$> vs.
Proof.
  unfold bump. rewrite <- list_fmap_compose. apply list_fmap_ext.
  intros _ r _. simpl. now destruct (Versions.id r =? i).
Qed.

(** The counter only goes up: two calls in a row return [max_version + 1]
    and [max_version + 2], and the row ends two higher. *)
Theorem current_max_version_twice (s : session) (r : Versions.row) :
  r ∈ versions s ->
  NoDup (Versions.id <$> versions s) ->
  pending_ops s = [] ->
  in_sync s = true ->
  (a <- current_max_version (Versions.id r) ;;
   b <- current_max_version (Versions.id r) ;;
   ret (a, b)) s
  = (Ok (Versions.max_version r + 1, Versions.max_version r + 2),
     {| versions := bump (Versions.id r) (bump (Versions.id r) (versions s));
        table := table s; pending_ops := []; obj := obj s;
        attached := attached s; tc_name := tc_name s |})
  /\ with_max_version r (Versions.max_version r + 2)
     ∈ bump (Versions.id r) (bump (Versions.id r) (versions s)).
Proof.
  intros Hin Hnd Hpend Hsync.
  set (r1 := with_max_version r (Versions.max_version r + 1)).
  set (s1 := {| versions := bump (Versions.id r) (versions s); table := table s;
                pending_ops := []; obj := obj s; attached := attached s;
                tc_name := tc_name s |}).
  assert (Hin1 : r1 ∈ versions s1) by now apply bump_elem.
  assert (Hnd1 : NoDup (Versions.id <$> versions s1)) by (simpl; now rewrite bump_ids).
  pose proof (current_max_version_run s1 r1 Hin1 Hnd1 eq_refl Hsync) as Hrun1.
  simpl in Hrun1.
  split.
  - unfold bind at 1. rewrite (current_max_version_run s r Hin Hnd Hpend Hsync).
    fold s1. unfold bind at 1. rewrite Hrun1. unfold ret.
    now replace (Versions.max_version r + 1 + 1) with (Versions.max_version r + 2) by lia.
  - pose proof (bump_elem _ _ Hin1) as H. simpl in H.
    unfold with_max_version in *. simpl in H.
    now replace (Versions.max_version r + 1 + 1) with (Versions.max_version r + 2) in H by lia.
Qed.

Lemma bump_fresh i vs : i ∉ Versions.id <$> vs -> bump i vs = vs.
Proof.
  unfold bump. induction vs as [|a vs IH]; csimpl; [done|].
  rewrite not_elem_of_cons. intros [Ha Hvs]. rewrite IH by done.
  destruct (Z.eqb_spec (Versions.id a) i); [congruence | done].
Qed.

Lemma seed_code s n :
  match
    match row_version <$> filter (fun r => row_name r = n) (table s) with
    | [] => None
    | v :: vs => Some (foldr Z.max v vs)
    end
  with
  | Some v => if v =? 0 then 0 else v
  | None => 0
  end = seed s n.
Proof.
  unfold seed. destruct (row_version <$> filter _ (table s)) as [|v vs]; [done|].
  destruct (Z.eqb_spec (foldr Z.max v vs) 0) as [E|_]; [now rewrite E | done].
Qed.

Lemma foldr_max_bound v vs x : x ∈ v :: vs -> x <= foldr Z.max v vs.
Proof.
  induction vs as [|a vs IH]; simpl.
  - intros H. apply list_elem_of_singleton in H. lia.
  - intros H. apply elem_of_cons in H as [->|H].
    + assert (v <= foldr Z.max v vs) by (apply IH; now left). lia.
    + apply elem_of_cons in H as [->|H]; [lia|].
      assert (x <= foldr Z.max v vs) by (apply IH; now right). lia.
Qed.

Lemma seed_bound s n row :
  row ∈ table s -> row_name row = n -> row_version row <= seed s n.
Proof.
  intros Hin Hn. unfold seed.
  assert (Hv : row_version row ∈ row_version <$> filter (fun r => row_name r = n) (table s)).
  { apply list_elem_of_fmap_2, list_elem_of_filter. now split. }
  destruct (row_version <$> filter _ (table s)) as [|v vs]; [now apply elem_of_nil in Hv|].
  now apply foldr_max_bound.
Qed.

Lemma filter_none {A} (P : A -> Prop) `{!forall x, Decision (P x)} (l : list A) :
  (forall x, x ∈ l -> ~ P x) -> filter P l = [].
Proof.
  induction l as [|a l IH]; intros Hl; [done|].
  rewrite filter_cons, decide_False by (apply Hl; now left).
  apply IH. intros x Hx. apply Hl. now right.
Qed.

Lemma set_version_first_run (s : session) (n : string) :
  column (obj s) "name" = VStr n ->
  counter s n = None ->
  NoDup (Versions.id <$> versions s) ->
  pending_ops s = [] ->
  in_sync s = true ->
  set_version s
  = (Ok tt,
     {| versions := versions s ++
                    [{| Versions.id := next_id (Versions.id <$> versions s);
                        Versions.class_name := tc_name s;
                        Versions.record_name := n;
                        Versions.max_version := seed s n + 1 |}];
        table := table s; pending_ops := [];
        obj := <["version" := VInt (seed s n + 1)]> (obj s);
        attached := attached s; tc_name := tc_name s |}).
Proof.
  intros Hname Hnone Hnd Hpend Hsync.
  set (i := next_id (Versions.id <$> versions s)).
  set (r0 := {| Versions.id := i; Versions.class_name := tc_name s;
                Versions.record_name := n; Versions.max_version := seed s n |}).
  set (sc := {| versions := versions s ++ [r0]; table := table s; pending_ops := [];
                obj := obj s; attached := attached s; tc_name := tc_name s |}).
  assert (Hfresh : i ∉ Versions.id <$> versions s) by apply next_id_fresh.
  assert (Hrun : current_max_version i sc
    = (Ok (seed s n + 1),
       {| versions := versions s ++ [with_max_version r0 (seed s n + 1)];
          table := table s; pending_ops := []; obj := obj s;
          attached := attached s; tc_name := tc_name s |})).
  { assert (Hin : r0 ∈ versions sc) by (simpl; apply elem_of_app; right; now left).
    assert (Hnd' : NoDup (Versions.id <$> versions sc)).
    { simpl. rewrite fmap_app. apply NoDup_app. split; [done|]. split.
      - intros x Hx Hx'. simpl in Hx'. apply list_elem_of_singleton in Hx' as ->. done.
      - apply NoDup_singleton. }
    pose proof (current_max_version_run sc r0 Hin Hnd' eq_refl Hsync) as H.
    change (Versions.id r0) with i in H. rewrite H. simpl.
    f_equal. f_equal. unfold bump. rewrite fmap_app. simpl. rewrite Z.eqb_refl.
    f_equal. now apply bump_fresh. }
  unfold set_version. unfold bind at 1 2, gets. rewrite Hname.
  unfold bind at 1. unfold bind at 1. unfold query_versions_first, gets.
  fold (counter s n). rewrite Hnone.
  assert (Hcreate :
    (v <- query_max_version n ;;
     i0 <- gets (fun s0 => next_id (Versions.id <$> versions s0)) ;;
     modify (fun s0 => set_pending_ops
       (pending_ops s0 ++
        [Insert_versions
           {| Versions.id := i0; Versions.class_name := tc_name s;
              Versions.record_name := n;
              Versions.max_version := match v with
                                      | Some v0 => if v0 =? 0 then 0 else v0
                                      | None => 0
                                      end |}])%list s0) ;;;
     commit ;;; ret i0) s = (Ok i, sc)).
  { unfold bind, query_max_version, gets, modify.
    rewrite commit_in_sync by exact Hsync.
    unfold ret. simpl. rewrite Hpend. simpl. rewrite seed_code. reflexivity. }
  unfold gets in Hcreate. rewrite Hcreate.
  unfold bind. rewrite Hrun. reflexivity.
Qed.

(** The first [set_version] for a name, when no counter row exists yet:
    a counter row is inserted for the entity's class and name, seeded with
    the largest version among the rows of that name (0 when there is none)
    and incremented at once; the entity gets that version, which is above
    every version of a row of that name, and is 1 when the name is new. *)
Theorem set_version_first_use (s : session) (n : string) :
  column (obj s) "name" = VStr n ->
  counter s n = None ->
  NoDup (Versions.id <$> versions s) ->
  pending_ops s = [] ->
  in_sync s = true ->
  set_version s
  = (Ok tt,
     {| versions := versions s ++
                    [{| Versions.id := next_id (Versions.id <$> versions s);
                        Versions.class_name := tc_name s;
                        Versions.record_name := n;
                        Versions.max_version := seed s n + 1 |}];
        table := table s; pending_ops := [];
        obj := <["version" := VInt (seed s n + 1)]> (obj s);
        attached := attached s; tc_name := tc_name s |})
  /\ (forall row, row ∈ table s -> row_name row = n -> row_version row < seed s n + 1)
  /\ ((forall row, row ∈ table s -> row_name row <> n) -> seed s n + 1 = 1).
Proof.
  intros Hname Hnone Hnd Hpend Hsync. split; [|split].
  - now apply set_version_first_run.
  - intros row Hin Hn. pose proof (seed_bound s n row Hin Hn). lia.
  - intros Hno. unfold seed.
    replace (filter (fun r => row_name r = n) (table s)) with (@nil entity_row); [done|].
    symmetry. apply filter_none. intros row Hin. now apply Hno.
Qed.

(** [new_version()] followed by the save, once [set_version] is known. *)
Lemma new_version_save_run (tc : string -> type_attr) (s : session) (n : string) (k : Z)
    (vs1 : list Versions.row) :
  set_version s
  = (Ok tt, {| versions := vs1; table := table s; pending_ops := [];
               obj := <["version" := VInt k]> (obj s);
               attached := attached s; tc_name := tc_name s |}) ->
  column (obj s) "name" = VStr n ->
  (new_version tc [] ;;; save) s
  = (Ok tt,
     {| versions := vs1;
        table := table s ++ [{| row_id := next_id (row_id <$> table s);
                                row_name := n; row_version := k |}];
        pending_ops := [];
        obj := <["version" := VInt k]>
                 (<["id" := VInt (next_id (row_id <$> table s))]>
                    (<["id" := VNone]> (<["version" := VInt k]> (obj s))));
        attached := true; tc_name := tc_name s |}).
Proof.
  intros Hsv Hname.
  set (s2 := {| versions := vs1; table := table s; pending_ops := [];
                obj := <["id" := VNone]> (<["version" := VInt k]> (obj s));
                attached := false; tc_name := tc_name s |}).
  assert (Hnv : new_version tc [] s = (Ok (obj s2), s2)).
  { unfold new_version. unfold bind at 1. rewrite Hsv.
    unfold bind, make_transient, setattr, modify, gets. reflexivity. }
  unfold bind. rewrite Hnv.
  rewrite (save_transient s2 n k); [reflexivity|reflexivity| | |].
  - unfold column. simpl. now rewrite lookup_insert_eq.
  - unfold column in *. simpl. now rewrite !lookup_insert_ne by done.
  - unfold column. simpl. rewrite lookup_insert_ne by done. now rewrite lookup_insert_eq.
Qed.

Lemma obj_row_saved (d : instance) (i k : Z) (n : string) :
  column d "name" = VStr n ->
  obj_row (<["version" := VInt k]> (<["id" := VInt i]> (<["id" := VNone]>
             (<["version" := VInt k]> d))))
  = Some {| row_id := i; row_name := n; row_version := k |}.
Proof.
  intros Hname. unfold obj_row, column in *.
  rewrite lookup_insert_ne, lookup_insert_eq by done.
  rewrite !lookup_insert_ne by done. rewrite lookup_insert_eq.
  destruct (d !! "name") as [x|]; simpl in *; now subst.
Qed.

(** What the save leaves, from what is known of the counters. *)
Lemma after_save_invariant (s : session) (n : string) (k : Z)
    (vs1 : list Versions.row) (d3 : instance) :
  at_rest s -> dominated s -> NoDup (name_versions (table s)) ->
  (forall row, row ∈ table s -> row_name row = n -> row_version row < k) ->
  NoDup (Versions.id <$> vs1) ->
  (forall n' r',
     head (filter (fun r => Versions.class_name r = tc_name s /\ Versions.record_name r = n')
                  vs1) = Some r' ->
     (n' = n /\ k <= Versions.max_version r') \/
     (n' <> n /\ exists r0, counter s n' = Some r0
                            /\ Versions.max_version r0 <= Versions.max_version r')) ->
  obj_row d3 = Some {| row_id := next_id (row_id <$> table s);
                       row_name := n; row_version := k |} ->
  let s3 := {| versions := vs1;
               table := table s ++ [{| row_id := next_id (row_id <$> table s);
                                       row_name := n; row_version := k |}];
               pending_ops := []; obj := d3; attached := true; tc_name := tc_name s |} in
  at_rest s3 /\ dominated s3 /\ NoDup (name_versions (table s3)).
Proof.
  intros (Hv & Ht & Hp & Hsync) Hdom Hpairs Hk Hv1 Hcounters Hrow s3.
  set (new := {| row_id := next_id (row_id <$> table s); row_name := n; row_version := k |}).
  assert (Hids : NoDup (row_id <$> table s3)).
  { simpl. rewrite fmap_app. apply NoDup_app. split; [done|]. split; [|apply NoDup_singleton].
    intros x Hx Hx'. simpl in Hx'. apply list_elem_of_singleton in Hx' as ->.
    now apply next_id_fresh in Hx. }
  split; [|split].
  - split; [exact Hv1|]. split; [exact Hids|]. split; [reflexivity|].
    unfold in_sync. simpl. rewrite Hrow.
    rewrite !bool_decide_eq_true_2; [done | exact Hids |].
    apply elem_of_app. right. now left.
  - intros n' r' row Hc Hin Hn'. simpl in Hin.
    destruct (Hcounters n' r' Hc) as [[-> Hle]|[Hne (r0 & Hc0 & Hle)]].
    + apply elem_of_app in Hin as [Hin|Hin].
      * pose proof (Hk row Hin Hn'). lia.
      * apply list_elem_of_singleton in Hin as ->. simpl. lia.
    + apply elem_of_app in Hin as [Hin|Hin].
      * pose proof (Hdom n' r0 row Hc0 Hin Hn'). lia.
      * apply list_elem_of_singleton in Hin as ->. simpl in Hn'. congruence.
  - unfold name_versions in *. simpl. rewrite fmap_app. apply NoDup_app.
    split; [done|]. split; [|apply NoDup_singleton].
    intros x Hx Hx'. simpl in Hx'. apply list_elem_of_singleton in Hx' as ->.
    apply list_elem_of_fmap in Hx as (row & [= Hn Hver] & Hin).
    pose proof (Hk row Hin (eq_sym Hn)). lia.
Qed.

Lemma head_filter_bump_any (c n' : string) i vs r' :
  head (filter (fun r => Versions.class_name r = c /\ Versions.record_name r = n')
               (bump i vs)) = Some r' ->
  exists r0,
    head (filter (fun r => Versions.class_name r = c /\ Versions.record_name r = n') vs)
    = Some r0
    /\ r' = (if Versions.id r0 =? i
             then with_max_version r0 (Versions.max_version r0 + 1) else r0).
Proof.
  unfold bump. induction vs as [|a vs IH]; csimpl; [done|].
  rewrite !filter_cons.
  set (fa := if Versions.id a =? i
             then with_max_version a (Versions.max_version a + 1) else a).
  assert (Hsame : Versions.class_name fa = Versions.class_name a
                  /\ Versions.record_name fa = Versions.record_name a).
  { unfold fa. now destruct (Versions.id a =? i). }
  destruct Hsame as [Hc Hn].
  destruct (decide (Versions.class_name a = c /\ Versions.record_name a = n')) as [Ha|Ha].
  - rewrite decide_True by (rewrite Hc, Hn; exact Ha). simpl.
    intros [= <-]. eauto.
  - rewrite decide_False by (rewrite Hc, Hn; exact Ha). exact IH.
Qed.

Lemma head_None_nil {A} (l : list A) : head l = None -> l = [].
Proof. now destruct l. Qed.

(** One more version of an entity.  In a session at rest where no row is
    above the counter of its name and no two rows share name and version,
    [new_version()] followed by the save returns and appends one row: its key
    is new, its name is the entity's, and its version is above every version
    the name had.  The session is at rest again, the counters still bound the
    rows, and name and version still identify a row: the step can be
    repeated. *)
Theorem new_version_save_keeps_invariant (tc : string -> type_attr) (s : session)
    (n : string) :
  column (obj s) "name" = VStr n ->
  at_rest s -> dominated s -> NoDup (name_versions (table s)) ->
  exists s' k,
    (new_version tc [] ;;; save) s = (Ok tt, s')
    /\ table s' = (table s ++ [{| row_id := next_id (row_id <$> table s);
                                  row_name := n; row_version := k |}])%list
    /\ (forall row, row ∈ table s -> row_name row = n -> row_version row < k)
    /\ column (obj s') "name" = VStr n
    /\ at_rest s' /\ dominated s' /\ NoDup (name_versions (table s')).
Proof.
  intros Hname Hrest Hdom Hpairs.
  pose proof Hrest as (Hv & Ht & Hp & Hsync).
  assert (Hname3 : forall k i,
    column (<["version" := VInt k]> (<["id" := VInt i]> (<["id" := VNone]>
              (<["version" := VInt k]> (obj s))))) "name" = VStr n).
  { intros k i. unfold column in *. now rewrite !lookup_insert_ne by done. }
  destruct (counter s n) as [r|] eqn:Hc.
  - (* the counter exists *)
    set (k := Versions.max_version r + 1).
    pose proof (set_version_run s n r Hname Hc Hv Hp Hsync) as Hsv. fold k in Hsv.
    pose proof (new_version_save_run tc s n k _ Hsv Hname) as Hrun.
    assert (Hk : forall row, row ∈ table s -> row_name row = n -> row_version row < k).
    { intros row Hin Hn. pose proof (Hdom n r row Hc Hin Hn). unfold k. lia. }
    eexists _, k. split; [exact Hrun|]. split; [reflexivity|]. split; [exact Hk|].
    split; [apply Hname3|].
    apply (after_save_invariant s n k); auto.
    + now rewrite bump_ids.
    + intros n' r' Hr'. apply head_filter_bump_any in Hr' as (r0 & Hr0 & ->).
      destruct (decide (n' = n)) as [->|Hne].
      * left. split; [done|]. unfold counter in Hc. rewrite Hc in Hr0.
        injection Hr0 as <-. rewrite Z.eqb_refl. simpl. unfold k. lia.
      * right. split; [done|]. exists r0. split; [exact Hr0|].
        destruct (Versions.id r0 =? Versions.id r); simpl; lia.
    + now apply obj_row_saved.
  - (* the counter is created *)
    set (k := seed s n + 1).
    pose proof (set_version_first_run s n Hname Hc Hv Hp Hsync) as Hsv. fold k in Hsv.
    pose proof (new_version_save_run tc s n k _ Hsv Hname) as Hrun.
    assert (Hk : forall row, row ∈ table s -> row_name row = n -> row_version row < k).
    { intros row Hin Hn. pose proof (seed_bound s n row Hin Hn). unfold k. lia. }
    eexists _, k. split; [exact Hrun|]. split; [reflexivity|]. split; [exact Hk|].
    split; [apply Hname3|].
    apply (after_save_invariant s n k); auto.
    + rewrite fmap_app. apply NoDup_app. split; [done|]. split; [|apply NoDup_singleton].
      intros x Hx Hx'. simpl in Hx'. apply list_elem_of_singleton in Hx' as ->.
      now apply next_id_fresh in Hx.
    + intros n' r'. rewrite filter_app, filter_cons, filter_nil. simpl.
      destruct (decide (n' = n)) as [->|Hne].
      * rewrite decide_True by done. unfold counter in Hc.
        apply head_None_nil in Hc. rewrite Hc. simpl.
        intros [= <-]. left. simpl. split; [done | lia].
      * rewrite decide_False by (intros [_ E]; congruence).
        rewrite app_nil_r. intros Hr'. right. split; [done|].
        exists r'. split; [exact Hr' | lia].
    + now apply obj_row_saved.
Qed.

(** ** From the constructor and the decorator to [get] *)

Lemma parameters_miss_truthy w :
  w_self w !! "__lazy_parameters" = None ->
  truthy (w_dicts w) (column (w_self w) "params") = true ->
  parameters w
  = (Ok (column (w_self w) "params"),
     set_w_self (<["__lazy_parameters" := column (w_self w) "params"]> (w_self w)) w).
Proof.
  intros Hmiss Ht. unfold parameters, lazy_property, try_except, getattr.
  change ("__lazy_" +:+ __name__ parameters_function) with "__lazy_parameters".
  rewrite Hmiss. unfold parameters_function, call, bind, gets. rewrite Ht.
  reflexivity.
Qed.

Lemma get_found name d w l o v w1 :
  parameters w = (Ok (VDict l), w1) ->
  w_dicts w1 !! l = Some o ->
  items o !! name = Some v ->
  fst (get name d w) = Ok v.
Proof.
  intros Hpar Ho Hv. unfold get. unfold bind at 1. rewrite Hpar.
  destruct (get_default_returns name d w1) as (dv & cs' & Hd).
  unfold bind at 1, gets at 1. unfold bind at 1. rewrite Hd.
  unfold dict_get. simpl. now rewrite Ho, Hv.
Qed.

(** The document given to the constructor is what [get] reads.  [params]
    becomes a [MutableDict] with the items of the dict passed in; a plain
    dict is copied, so [params] is never the object the caller passed (the
    shared default [{}] of the signature included), which stays as it was;
    and every key of the document is returned by [get]. *)
Theorem init_then_get (l : nat) (o : dictobj) (w : world) :
  w_self w !! "__lazy_parameters" = None ->
  w_dicts w !! l = Some o ->
  exists w1 lp,
    ParametrizedMixin_init (VDict l) w = (Ok tt, w1)
    /\ column (w_self w1) "params" = VDict lp
    /\ w_dicts w1 !! lp = Some {| is_mutable_dict := true; items := items o |}
    /\ w_dicts w1 !! l = Some o
    /\ (is_mutable_dict o = false -> lp <> l)
    /\ forall name v d, items o !! name = Some v -> fst (get name d w1) = Ok v.
Proof.
  intros Hmiss Ho.
  assert (Hinit : exists w1 lp,
    ParametrizedMixin_init (VDict l) w = (Ok tt, w1)
    /\ column (w_self w1) "params" = VDict lp
    /\ w_dicts w1 !! lp = Some {| is_mutable_dict := true; items := items o |}
    /\ w_dicts w1 !! l = Some o
    /\ (is_mutable_dict o = false -> lp <> l)
    /\ w_self w1 !! "__lazy_parameters" = None).
  { unfold ParametrizedMixin_init, assign_params, bind, gets. rewrite Ho.
    destruct (is_mutable_dict o) eqn:Hm.
    - exists (set_w_self (<["params" := VDict l]> (w_self w)) w), l.
      unfold setattr, modify. simpl. split; [reflexivity|].
      split; [unfold column; now rewrite lookup_insert_eq|].
      split; [rewrite Ho; destruct o; simpl in *; now subst|].
      split; [done|]. split; [done|]. now rewrite lookup_insert_ne.
    - set (l' := fresh (dom (w_dicts w))).
      assert (Hne : l' <> l).
      { intros E. assert (l' ∈ dom (w_dicts w)) by (rewrite E; apply elem_of_dom; eauto).
        now apply (is_fresh (dom (w_dicts w))). }
      eexists _, l'. unfold new_dict, setattr, modify. fold l'.
      split; [reflexivity|]. simpl.
      split; [unfold column; now rewrite lookup_insert_eq|].
      split; [apply lookup_insert_eq|].
      split; [now rewrite lookup_insert_ne|].
      split; [done|]. now rewrite lookup_insert_ne. }
  destruct Hinit as (w1 & lp & Hrun & Hcol & Hlp & Hl & Hcopy & Hmiss1).
  exists w1, lp. repeat (split; [assumption|]).
  intros name v d Hv.
  assert (Ht : truthy (w_dicts w1) (column (w_self w1) "params") = true).
  { rewrite Hcol. simpl. rewrite Hlp. simpl.
    rewrite bool_decide_eq_false_2; [done|].
    intros E. rewrite E in Hv. now rewrite lookup_empty in Hv. }
  pose proof (parameters_miss_truthy w1 Hmiss1 Ht) as Hpar. rewrite Hcol in Hpar.
  eapply (get_found name d w1 lp); [exact Hpar | exact Hlp | exact Hv].
Qed.



(** ** The further properties at sample inputs *)

Lemma invalidate_everything_witness :
  invalidate whole replace_whole None cached_instance = (Ok tt, <["n" := VInt 1]> ∅).
Proof.
  destruct (invalidate_everything whole replace_whole
              (fun _ _ => eq_refl) (fun _ _ _ => eq_refl) (fun _ => eq_refl)
              cached_instance) as [Hrun _].
  rewrite Hrun. vm_compute. reflexivity.
Defined.

Lemma invalidate_named_only_witness :
  invalidate whole replace_whole (Some "f") cached_instance = (Ok tt, <["n" := VInt 1]> ∅).
Proof.
  destruct (invalidate_named_only whole replace_whole (fun _ _ => eq_refl)
              "f" cached_instance (VInt 1) eq_refl) as [Hrun _].
  rewrite Hrun. vm_compute. reflexivity.
Defined.

Lemma register_then_lookup_witness :
  parameter_default class_A "x" (snd (register_parameter_call reg_x class_A abc))
  = (Ok (VInt 5), snd (register_parameter_call reg_x class_A abc)).
Proof.
  assert (Hcall : register_parameter_call reg_x class_A abc
                  = (Ok class_A, snd (register_parameter_call reg_x class_A abc)))
    by (vm_compute; reflexivity).
  destruct (register_then_lookup reg_x class_A class_A abc _ Hcall) as (_ & _ & Hd & _).
  exact Hd.
Defined.

Lemma registered_parameters_cached_witness :
  registered_parameters class_C (snd (registered_parameters class_C abc))
  = (Ok [], snd (registered_parameters class_C abc)).
Proof.
  assert (Hread : registered_parameters class_C abc
                  = (Ok [], snd (registered_parameters class_C abc)))
    by (vm_compute; reflexivity).
  destruct (registered_parameters_cached class_C abc _ [] Hread) as [Hagain _].
  exact Hagain.
Defined.

Lemma set_then_get_witness :
  exists w1, set "x" (VInt 9) entity_of_A = (Ok tt, w1)
             /\ fst (get "x" VNone w1) = Ok (VInt 9).
Proof.
  destruct (set_then_get "x" (VInt 9) entity_of_A) as (ps & cs' & Hreg & Hset).
  - discriminate.
  - reflexivity.
  - vm_compute in Hreg. injection Hreg as <- _.
    destruct (Hset par_x eq_refl eq_refl) as (w1 & _ & _ & Hrun & _ & _ & _ & _ & Hget & _).
    exists w1. split; [exact Hrun | apply Hget].
Defined.

Lemma set_parameters_name_is_lost_witness :
  exists w1, set "parameters" (VInt 2) entity_with_parameters = (Ok tt, w1)
             /\ fst (get "parameters" VNone w1) = Ok (VInt 1).
Proof.
  destruct (set_parameters_name_is_lost (VInt 2) entity_with_parameters)
    as (ps & cs' & Hreg & Hset).
  - reflexivity.
  - reflexivity.
  - vm_compute in Hreg. injection Hreg as <- _.
    destruct (Hset {| p_section := "A:main"; p_name := "parameters"; p_default := VInt 1;
                      p_type := int_t; p_description := ""; p_cls := "A" |}
                eq_refl eq_refl) as (w1 & _ & _ & Hrun & _ & _ & _ & Hget).
    exists w1. split; [exact Hrun | exact Hget].
Defined.

Lemma current_max_version_twice_witness :
  fst ((a <- current_max_version 1 ;; b <- current_max_version 1 ;; ret (a, b)) doc_session)
  = Ok (3, 4).
Proof.
  destruct (current_max_version_twice doc_session
              {| Versions.id := 1; Versions.class_name := "Doc";
                 Versions.record_name := "foo"; Versions.max_version := 2 |}) as [Hrun _].
  - now left.
  - apply NoDup_singleton.
  - reflexivity.
  - vm_compute. reflexivity.
  - simpl in Hrun. now rewrite Hrun.
Defined.

Lemma set_version_first_use_witness :
  obj (snd (set_version uncounted_session)) !! "version" = Some (VInt 3)
  /\ versions (snd (set_version uncounted_session))
     = [ {| Versions.id := 1; Versions.class_name := "Doc";
            Versions.record_name := "foo"; Versions.max_version := 3 |} ].
Proof.
  destruct (set_version_first_use uncounted_session "foo") as [Hrun _].
  - reflexivity.
  - reflexivity.
  - apply NoDup_nil_2.
  - reflexivity.
  - vm_compute. reflexivity.
  - rewrite Hrun. vm_compute. split; reflexivity.
Defined.

Lemma doc_session_at_rest : at_rest doc_session.
Proof.
  split; [apply NoDup_singleton|]. split; [|split; [reflexivity | vm_compute; reflexivity]].
  simpl. apply NoDup_cons. split; [|apply NoDup_singleton].
  intros H. apply list_elem_of_singleton in H. discriminate.
Qed.

Lemma doc_session_dominated : dominated doc_session.
Proof.
  intros n r row Hc Hin Hn. simpl in Hin.
  assert (Hfoo : n = "foo").
  { apply elem_of_cons in Hin as [->|Hin]; [now rewrite <- Hn|].
    apply list_elem_of_singleton in Hin as ->. now rewrite <- Hn. }
  subst n. rewrite Hfoo in Hc. vm_compute in Hc. injection Hc as <-.
  apply elem_of_cons in Hin as [->|Hin]; [simpl; lia|].
  apply list_elem_of_singleton in Hin as ->. simpl. lia.
Qed.

Lemma new_version_save_keeps_invariant_witness :
  exists s', (new_version Doc_type [] ;;; save) doc_session = (Ok tt, s')
             /\ at_rest s' /\ dominated s'.
Proof.
  destruct (new_version_save_keeps_invariant Doc_type doc_session "foo")
    as (s' & k & Hrun & _ & _ & _ & Hrest & Hdom & _).
  - reflexivity.
  - exact doc_session_at_rest.
  - exact doc_session_dominated.
  - simpl. apply NoDup_cons. split; [|apply NoDup_singleton].
    intros H. apply list_elem_of_singleton in H. discriminate.
  - exists s'. auto.
Defined.

Lemma init_then_get_witness :
  exists w1, ParametrizedMixin_init (VDict 0) plain_doc_world = (Ok tt, w1)
             /\ fst (get "a" VNone w1) = Ok (VInt 1).
Proof.
  destruct (init_then_get 0 {| is_mutable_dict := false; items := {[ "a" := VInt 1 ]} |}
              plain_doc_world) as (w1 & lp & Hrun & _ & _ & _ & _ & Hget).
  - reflexivity.
  - reflexivity.
  - exists w1. split; [exact Hrun|]. now apply Hget.
Defined.


(** ** Registrations after a registry was built *)

Lemma resolve_owner_in cs order a o l :
  resolve cs order a = Some (o, l) -> o ∈ order.
Proof.
  induction order as [|k order IH]; simpl; [done|].
  destruct (cls_dict (the_class cs k) !! a).
  - intros [= <- _]. now left.
  - intros H. right. now apply IH.
Qed.

(** A registry that was built is a snapshot: once a class has its own
    registry, a decorator applied afterwards for another owning class that
    does not derive from it (a parent, say) does not show in
    [registered_parameters()] of the class, which returns the same list as
    before. *)
Theorem late_registration_not_seen (self : register_parameter) (cls child : nat)
    (cs cs' : classes) (r : result nat) (l : list parameter) :
  cls_dict (the_class cs child) !! (PARAMETER_REGISTRY +:+ cls_name (the_class cs child))
  = Some l ->
  child ∉ mro cs (target_class_of self cls) ->
  register_parameter_call self cls cs = (r, cs') ->
  registered_parameters child cs = (Ok l, cs)
  /\ registered_parameters child cs' = (Ok l, cs').
Proof.
  intros Hown Hnot Hcall.
  set (tcls := target_class_of self cls) in *.
  assert (Hhit : forall cs1,
    the_class cs1 child = the_class cs child -> registered_parameters child cs1 = (Ok l, cs1)).
  { intros cs1 Hsame. apply (registered_parameters_hit _ _ child).
    unfold mro. simpl. now rewrite Hsame, Hown. }
  split; [now apply Hhit|]. apply Hhit.
  destruct (register_parameter_call_run self cls cs) as (cs0 & o & l0 & Hcs0 & Hres & Hrun).
  fold tcls in Hcs0, Hres, Hrun.
  assert (Htcls : child <> tcls).
  { intros E. apply Hnot. rewrite E. unfold mro. now left. }
  assert (H0 : the_class cs0 child = the_class cs child /\ mro cs0 tcls = mro cs tcls).
  { destruct Hcs0 as [->|(fs & pp & _ & _ & ->)]; [done|].
    split; [|apply mro_store].
    rewrite the_class_store. now rewrite bool_decide_eq_false_2. }
  destruct H0 as [Hchild0 Hmro0].
  rewrite Hrun in Hcall.
  destruct (filter _ l0) as [|? ?]; injection Hcall as _ <-; [|exact Hchild0].
  rewrite the_class_store, bool_decide_eq_false_2; [exact Hchild0|].
  intros E. apply Hnot. rewrite <- Hmro0, E.
  eapply resolve_owner_in. exact Hres.
Qed.

Lemma late_registration_not_seen_witness :
  registered_parameters class_B
    (snd ((register_parameter_call reg_y class_B ;;;
           register_parameter_call reg_x class_A) abc))
  = (Ok [par_y],
     snd ((register_parameter_call reg_y class_B ;;;
           register_parameter_call reg_x class_A) abc)).
Proof.
  destruct (late_registration_not_seen reg_x class_A class_B
              (snd (register_parameter_call reg_y class_B abc))
              (snd ((register_parameter_call reg_y class_B ;;;
                     register_parameter_call reg_x class_A) abc))
              (Ok class_A) [par_y]) as [_ Hafter].
  - vm_compute. reflexivity.
  - vm_compute. intros H. apply list_elem_of_singleton in H. discriminate.
  - vm_compute. reflexivity.
  - exact Hafter.
Defined.

(** ** Registering a name twice *)

(** *** What the registry operations keep *)

Section RegistrySteps.
(** A property of the classes kept by the two writes the module makes: the
    list stored for a class that finds none, and the list found with one
    parameter more at its end, stored where it was found. *)
Variable P : classes -> Prop.
Hypothesis P_build : forall cs c l,
  P cs -> resolve cs (mro cs c) (registry_field cs c) = None ->
  P (store_attr c (registry_field cs c) l cs).
Hypothesis P_append : forall cs c o l p,
  P cs -> resolve cs (mro cs c) (registry_field cs c) = Some (o, l) ->
  P (store_attr o (registry_field cs c) (l ++ [p]) cs).




End RegistrySteps.





Lemma abc_no_registry c : cls_dict (the_class abc c) = ∅.
Proof.
  unfold the_class, abc.
  destruct (decide (c = class_C)) as [->|HC]; [now rewrite lookup_insert_eq|].
  rewrite lookup_insert_ne by done.
  destruct (decide (c = class_B)) as [->|HB]; [now rewrite lookup_insert_eq|].
  rewrite lookup_insert_ne by done.
  destruct (decide (c = class_A)) as [->|HA]; [now rewrite lookup_insert_eq|].
  rewrite lookup_insert_ne by done. now rewrite lookup_empty.
Qed.


Lemma unique_names_abc : unique_names abc.
Proof. intros c a l. now rewrite abc_no_registry, lookup_empty. Qed.




(** The decorators [x], [y], [x] stacked on one class: the third raises. *)
Example register_stacked :
  fst ((register_parameter_call reg_x class_A ;;;
        register_parameter_call reg_y class_A ;;;
        register_parameter_call reg_x class_A) abc) = Raise ValueError.
Proof. vm_compute. reflexivity. Qed.

(** ** One parameter per name, on the classes [A], [B(A)] and [C(B)] *)

Lemma register_parameter_call_keeps_unique_names_witness :
  let cs1 := snd (register_parameter_call reg_x class_A abc) in
  let cs2 := snd (register_parameter_call reg_y class_B cs1) in
  cls_dict (the_class cs2 class_A) !! registry_field cs2 class_A = Some [par_x]
  /\ cls_dict (the_class cs2 class_B) !! registry_field cs2 class_B = Some [par_x; par_y]
  /\ register_parameter_call reg_z class_C cs2
     = (Ok class_C, store_attr class_C (registry_field cs2 class_C) [par_x; par_y; par_z] cs2)
  /\ unique_names (snd (register_parameter_call reg_z class_C cs2))
  /\ fst (register_parameter_call reg_x class_B cs2) = Raise ValueError
  /\ unique_names (snd (register_parameter_call reg_x class_B cs2)).
Proof.
  intros cs1 cs2.
  assert (H1 : unique_names cs1).
  { apply (register_parameter_call_keeps_unique_names reg_x class_A abc cs1
             (fst (register_parameter_call reg_x class_A abc)) unique_names_abc).
    unfold cs1. now destruct (register_parameter_call reg_x class_A abc). }
  assert (H2 : unique_names cs2).
  { apply (register_parameter_call_keeps_unique_names reg_y class_B cs1 cs2
             (fst (register_parameter_call reg_y class_B cs1)) H1).
    unfold cs2. now destruct (register_parameter_call reg_y class_B cs1). }
  split; [vm_compute; reflexivity|]. split; [vm_compute; reflexivity|].
  split; [vm_compute; reflexivity|]. split; [|split; [vm_compute; reflexivity|]].
  - apply (register_parameter_call_keeps_unique_names reg_z class_C cs2 _
             (fst (register_parameter_call reg_z class_C cs2)) H2).
    now destruct (register_parameter_call reg_z class_C cs2).
  - apply (register_parameter_call_keeps_unique_names reg_x class_B cs2 _
             (fst (register_parameter_call reg_x class_B cs2)) H2).
    now destruct (register_parameter_call reg_x class_B cs2).
Defined.
